(** * gql2ts, package from-query: the query-to-TypeScript compiler

    A shallow embedding of [src/packages/from-query/index.ts] and the
    properties of its selection walker, type resolver and assembler.

    Conventions of the embedding.
    - JavaScript strings are [string]; [Array.prototype.join] is
      [String.concat]; template literals are written out with [+:+].
    - A value that may be [undefined] or [null] is an [option].
    - The graphql-js schema is a graph of objects that point at each other
      (a field of [User] may have type [User]).  A type reference carries
      its kind and its name, and the cyclic part (the field map of a
      composite type, the member list of a union) is read from the schema
      by that name.
    - [console.error] and [console.log] append to a log that is threaded
      through the walker; a [throw] (or the TypeError of reading a property
      of [undefined]) ends the computation and keeps the log written so far.
    - The formatting hooks of [IOptions] are total pure functions. *)

From Stdlib Require Import String Ascii List Bool.
From stdpp Require Import base option strings gmap.
Import ListNotations.

Local Open Scope string_scope.
Set Warnings "-register-all".

(** ** JavaScript values *)

(** The line feed of the template literals. *)
Definition LF : string := String "010"%char EmptyString.

(** Truthiness of a string: every string but the empty one. *)
Definition truthy (s : string) : bool := negb (String.eqb s "").

(** [a || b] where [a] is a string or [undefined]/[null]. *)
Definition js_or (a : option string) (b : string) : string :=
  match a with
  | Some s => if truthy s then s else b
  | None => b
  end.

(** [`${v}`] for a string or [null]. *)
Definition interpolate (v : option string) : string :=
  match v with
  | Some s => s
  | None => "null"
  end.

(** ** The schema (graphql-js) *)

Inductive GraphQLType : Type :=
| GraphQLScalarType (name : string)
| GraphQLObjectType (name : string)
| GraphQLInterfaceType (name : string)
| GraphQLUnionType (name : string)
| GraphQLEnumType (name : string) (values : list string)
| GraphQLInputObjectType (name : string)
| GraphQLList (ofType : GraphQLType)
| GraphQLNonNull (ofType : GraphQLType).

Record GraphQLField : Type := {
  field_name : string;
  field_type : GraphQLType;
}.

(** A field map is a JavaScript object used as a dictionary; its keys are
    kept in insertion order because [Object.keys] is observable. *)
Definition FieldMap : Type := list (string * GraphQLField).

Fixpoint getField (fields : FieldMap) (key : string) : option GraphQLField :=
  match fields with
  | [] => None
  | (k, f) :: rest => if String.eqb k key then Some f else getField rest key
  end.

Record GraphQLSchema : Type := {
  (** [schema.getType(name)] *)
  schema_types : gmap string GraphQLType;
  (** [type.getFields()] of the object, interface or input object type of a name *)
  schema_fields : gmap string FieldMap;
  (** [union.getTypes()]: the member object types, in declaration order *)
  schema_unionTypes : gmap string (list string);
  schema_queryType : option string;
  schema_mutationType : option string;
  schema_subscriptionType : option string;
}.

Definition getType (schema : GraphQLSchema) (name : string) : option GraphQLType :=
  schema_types schema !! name.

Definition getFields (schema : GraphQLSchema) (typeName : string) : FieldMap :=
  default [] (schema_fields schema !! typeName).

Definition getTypes (schema : GraphQLSchema) (unionName : string) : list string :=
  default [] (schema_unionTypes schema !! unionName).

(** [getNamedType]: the type under every list and non-null wrapper. *)
Fixpoint getNamedType (type : GraphQLType) : GraphQLType :=
  match type with
  | GraphQLList t | GraphQLNonNull t => getNamedType t
  | _ => type
  end.

Definition isCompositeType (type : GraphQLType) : bool :=
  match type with
  | GraphQLObjectType _ | GraphQLInterfaceType _ | GraphQLUnionType _ => true
  | _ => false
  end.

(** [isList] and [isNonNullable] of [@gql2ts/util] are the two wrapper tests. *)
Definition isList (type : GraphQLType) : bool :=
  match type with GraphQLList _ => true | _ => false end.

Definition isNonNullable (type : GraphQLType) : bool :=
  match type with GraphQLNonNull _ => true | _ => false end.

(** [type.toString()] of a named type is its name. *)
Definition typeName (type : GraphQLType) : string :=
  match getNamedType type with
  | GraphQLScalarType n | GraphQLObjectType n | GraphQLInterfaceType n
  | GraphQLUnionType n | GraphQLEnumType n _ | GraphQLInputObjectType n => n
  | GraphQLList _ | GraphQLNonNull _ => ""
  end.

(** ** The document (graphql-js AST) *)

Record DirectiveNode : Type := { directive_name : string }.

Inductive SelectionNode : Type :=
| Field (alias : option string) (name : string)
        (directives : option (list DirectiveNode))
        (selectionSet : option (list SelectionNode))
| FragmentSpread (name : string) (directives : option (list DirectiveNode))
| InlineFragment (typeCondition : option string)
                 (directives : option (list DirectiveNode))
                 (selectionSet : list SelectionNode).

Inductive TypeNode : Type :=
| NamedType (name : string)
| ListType (type : TypeNode)
| NonNullType (type : TypeNode).

Record VariableDefinitionNode : Type := {
  variable_name : string;
  variable_type : TypeNode;
}.

Inductive OperationTypeNode : Type := query | mutation | subscription.

Inductive DefinitionNode : Type :=
| OperationDefinition (operation : OperationTypeNode) (name : option string)
                      (variableDefinitions : option (list VariableDefinitionNode))
                      (selectionSet : list SelectionNode)
| FragmentDefinition (name : string) (typeCondition : string)
                     (selectionSet : list SelectionNode)
| OtherDefinition (kind : string).

Definition DocumentNode : Type := list DefinitionNode.

(** ** [./types] and [./defaults] *)

(** [ITypeMap]: a dictionary from type names to output tokens with a
    mandatory [__DEFAULT] entry: the own properties of the object. *)
Record ITypeMap : Type := {
  __DEFAULT : string;
  entries : gmap string string;
}.

(** [TypeMap] is built by an object literal, so a property read that finds
    no own key goes on to [Object.prototype].  Its members are functions
    (and, for [__proto__], the prototype object itself), all truthy; a hook
    that is handed one instead of a token uses its text argument as text, so
    it sees the string the member coerces to, written here as V8 prints it. *)
Definition Object_prototype (key : string) : option string :=
  if String.eqb key "constructor" then Some "function Object() { [native code] }"
  else if existsb (String.eqb key)
            ["toString"; "toLocaleString"; "valueOf"; "hasOwnProperty"; "isPrototypeOf";
             "propertyIsEnumerable"; "__defineGetter__"; "__defineSetter__";
             "__lookupGetter__"; "__lookupSetter__"]
  then Some ("function " +:+ key +:+ "() { [native code] }")
  else if String.eqb key "__proto__" then Some "[object Object]"
  else None.

(** [TypeMap[key]]: an own property, else an inherited one, else
    [undefined]. *)
Definition typeMapGet (m : ITypeMap) (key : string) : option string :=
  if decide (key = "__DEFAULT") then Some (__DEFAULT m)
  else match entries m !! key with
       | Some token => Some token
       | None => Object_prototype key
       end.

(** [{ ...DEFAULT_TYPE_MAP, ...typeMap }]: the caller's entries win per key. *)
Definition mergeTypeMap (DEFAULT_TYPE_MAP : ITypeMap) (typeMap : gmap string string) : ITypeMap :=
  {| __DEFAULT := default (__DEFAULT DEFAULT_TYPE_MAP) (typeMap !! "__DEFAULT");
     entries := typeMap ∪ entries DEFAULT_TYPE_MAP |}.

(** [IOptions]: the formatting hooks, after [{ ...DEFAULT_OPTIONS, ...providedOptions }]. *)
Class IOptions : Type := {
  buildRootInterfaceName :
    DefinitionNode -> (DefinitionNode -> string) -> (string -> string) -> string;
  formatFragmentInterface : string -> list string -> list string -> string;
  formatInterface : string -> list string -> string;
  formatVariableInterface : string -> list string -> string;
  wrapList : string -> string;
  wrapPartial : string -> string;
  generateSubTypeInterfaceName : string -> nat -> option string;
  printType : string -> bool -> string;
  formatInput : string -> bool -> string -> string;
  generateFragmentName : string -> string;
  generateQueryName : DefinitionNode -> string;
}.

Record IComplexTypeSignature : Type := {
  ct_iface : string;
  ct_isPartial : bool;
  ct_name : option string;
}.

Record IChildren : Type := {
  iface : string;
  isFragment : bool;
  isPartial : bool;
  complexTypes : list IComplexTypeSignature;
}.

(** One record of the array [doIt] returns. *)
Record IReturn : Type := {
  variables : string;
  interface : string;
  additionalTypes : list string;
}.

(** ** Effects: the console and exceptions *)

Inductive LogEntry : Type :=
| ConsoleError (message : string)
(** [console.log(selection, newParent)], with [newParent] still [undefined] *)
| ConsoleLog (selection : SelectionNode).

Inductive JsError : Type :=
(** reading property [prop] of [undefined] *)
| TypeError (prop : string)
(** [throw new Error(message)] *)
| Error (message : string).

Inductive Completion (A : Type) : Type :=
| Normal (value : A)
| Throw (error : JsError).
Arguments Normal {A} value.
Arguments Throw {A} error.

Definition Console : Type := list LogEntry.

Definition M (A : Type) : Type := Console -> Completion A * Console.

Definition ret {A} (a : A) : M A := fun log => (Normal a, log).

Definition throw {A} (e : JsError) : M A := fun log => (Throw e, log).

Definition bind {A B} (c : M A) (k : A -> M B) : M B :=
  fun log =>
    match c log with
    | (Normal a, log') => k a log'
    | (Throw e, log') => (Throw e, log')
    end.

(** A computation without effect on the console. *)
Definition liftC {A} (c : Completion A) : M A := fun log => (c, log).

Definition console (entries : list LogEntry) : M unit :=
  fun log => (Normal tt, (log ++ entries)%list).

Notation "'let!' x ':=' c 'in' k" := (bind c (fun x => k))
  (at level 10, x pattern, c at level 100, k at level 200).

(** [xs.map(f)] for an effectful callback: left to right, stopping at the
    first exception. *)
Definition mapM {A B} (f : A -> M B) : list A -> M (list B) :=
  fix go (xs : list A) : M (list B) :=
    match xs with
    | [] => ret []
    | x :: rest =>
        let! y := f x in
        let! ys := go rest in
        ret (y :: ys)
    end.

(** ** The compiler: the closures of [doIt] *)

Section Compiler.

(** What the closures capture: the hooks, the merged type map and the
    schema. *)
Context {options : IOptions}.
Variable TypeMap : ITypeMap.
Variable parsedSchema : GraphQLSchema.

(** *** The type resolver *)

(** The values of an enum type are taken as the strings the template
    literal prints. *)
Definition handleEnum (values : list string) (isNonNull : bool) : string :=
  let decl := String.concat " | " (map (fun en => "'" +:+ en +:+ "'") values) in
  printType decl isNonNull.

(** [typeValue] is the name of the type in both uses: [type.toString()] of
    a schema type and [type.name.value] of a syntactic type node. *)
Definition handleRegularType (typeValue : string) (isNonNull : bool)
           (replacement : option string) : string :=
  let showValue := js_or replacement typeValue in
  let show :=
    js_or (typeMapGet TypeMap showValue)
          (match replacement with
           | Some r => if truthy r then showValue else __DEFAULT TypeMap
           | None => __DEFAULT TypeMap
           end) in
  printType show isNonNull.

Fixpoint convertToType (type : GraphQLType) (isNonNull : bool)
         (replacement : option string) : string :=
  match type with
  | GraphQLList ofType =>
      printType (wrapList (convertToType ofType false replacement)) isNonNull
  | GraphQLNonNull ofType => convertToType ofType true replacement
  | GraphQLEnumType _ values => handleEnum values isNonNull
  | _ => handleRegularType (typeName type) isNonNull replacement
  end.

(** [Object.keys(o).map(k => o[k])]: the keys of an object are distinct,
    so this lists its values in insertion order. *)
Definition handleInputObject (typeName : string) (isNonNull : bool) : string :=
  let variables := map snd (getFields parsedSchema typeName) in
  let variableDeclarations :=
    String.concat (LF +:+ "    ")
      (map (fun v => formatInput (field_name v) true (convertToType (field_type v) false None))
           variables) in
  let builder := "{" +:+ LF +:+ "    " +:+ variableDeclarations +:+ LF +:+ "  }" in
  printType builder isNonNull.

Definition handleNamedTypeInput (type : TypeNode) (isNonNull : bool) : option string :=
  match type with
  | NamedType name =>
      if truthy name then
        match getType parsedSchema name with
        | Some (GraphQLEnumType _ values) => Some (handleEnum values isNonNull)
        | Some (GraphQLInputObjectType n) => Some (handleInputObject n isNonNull)
        | _ => None
        end
      else None
  | _ => None
  end.

Fixpoint convertVariable (type : TypeNode) (isNonNull : bool)
         (replacement : option string) : string :=
  match type with
  | ListType t =>
      printType (wrapList (convertVariable t false replacement)) isNonNull
  | NonNullType t => convertVariable t true replacement
  | NamedType name =>
      js_or (handleNamedTypeInput type isNonNull)
            (handleRegularType name isNonNull replacement)
  end.

(** *** Directives *)

Definition UndefinedDirectives : list string := ["include"; "skip"].

Definition UndefinedDirectives_has (name : string) : bool :=
  existsb (String.eqb name) UndefinedDirectives.

Definition isUndefinedFromDirective (directives : option (list DirectiveNode)) : M bool :=
  match directives with
  | None | Some [] => ret false
  | Some directives =>
      let badDirectives :=
        List.filter (fun d => negb (UndefinedDirectives_has (directive_name d))) directives in
      let hasDirectives :=
        existsb (fun d => UndefinedDirectives_has (directive_name d)) directives in
      let! _ :=
        match badDirectives with
        | [] => ret tt
        | _ => console (ConsoleError "Found some unknown directives:"
                        :: map (fun d => ConsoleError (directive_name d)) badDirectives)
        end in
      ret hasDirectives
  end.

(** *** The selection walker *)

(** The [default] branch of the switch is closed by the type
    [OperationTypeNode]. *)
Definition getOperationFields (operation : OperationTypeNode) : option string :=
  match operation with
  | query => schema_queryType parsedSchema
  | mutation => schema_mutationType parsedSchema
  | subscription => schema_subscriptionType parsedSchema
  end.

Definition wrapPossiblePartial (possiblePartial : IChildren) : string :=
  if isPartial possiblePartial
  then wrapPartial (iface possiblePartial)
  else iface possiblePartial.

Definition flattenComplexTypes (children : list IChildren) : list IComplexTypeSignature :=
  fold_left (fun acc child => (acc ++ complexTypes child)%list) children [].

(** Lines 170-179: the field definition a [Field] selection names. *)
Definition resolveField (operation : OperationTypeNode) (parent : option GraphQLType)
           (name : string) : Completion (option GraphQLField) :=
  let fromRoot :=
    match getOperationFields operation with
    | Some operationFields => Normal (getField (getFields parsedSchema operationFields) name)
    | None => Throw (TypeError "getFields")
    end in
  match parent with
  | Some (GraphQLUnionType u) =>
      Normal (default None
                (List.find (fun z => bool_decide (is_Some z))
                   (map (fun t => getField (getFields parsedSchema t) name)
                        (getTypes parsedSchema u))))
  | Some (GraphQLObjectType n) | Some (GraphQLInterfaceType n) =>
      Normal (getField (getFields parsedSchema n) name)
  | _ => fromRoot
  end.

(** [field.type]: a TypeError when the field was not found. *)
Definition typeOf (field : option GraphQLField) : Completion GraphQLType :=
  match field with
  | Some f => Normal (field_type f)
  | None => Throw (TypeError "type")
  end.

(** Lines 198-238: from the results of the children of a field to the
    members [andOps] of its intersection and to its auxiliary types. *)
Definition composeSelections (name indentation : string) (selections : list IChildren)
  : list string * list IComplexTypeSignature :=
  let nonFragments := List.filter (fun s => negb (isFragment s)) selections in
  let fragments := List.filter (fun s => isFragment s) selections in
  let complexTypes0 := flattenComplexTypes selections in
  let nonPartialNonFragments := List.filter (fun nf => negb (isPartial nf)) nonFragments in
  let partialNonFragments := List.filter (fun nf => isPartial nf) nonFragments in
  let body (group : list IChildren) :=
    "{" +:+ LF +:+ String.concat LF (map iface group) +:+ LF +:+ indentation +:+ "}" in
  let '(andOps1, count1, complexTypes1) :=
    match nonPartialNonFragments with
    | [] => ([], 0, complexTypes0)
    | _ =>
        let builder := body nonPartialNonFragments in
        let newInterfaceName := generateSubTypeInterfaceName name 0 in
        let member :=
          match newInterfaceName with
          | Some n => if truthy n then n else builder
          | None => builder
          end in
        ([member], 1,
         (complexTypes0 ++
          [{| ct_iface := builder; ct_isPartial := false; ct_name := newInterfaceName |}])%list)
    end in
  let '(andOps2, complexTypes2) :=
    match partialNonFragments with
    | [] => (andOps1, complexTypes1)
    | _ =>
        let builder := wrapPartial (body partialNonFragments) in
        let newInterfaceName := generateSubTypeInterfaceName name count1 in
        ((andOps1 ++ [builder])%list,
         (complexTypes1 ++
          [{| ct_iface := builder; ct_isPartial := true; ct_name := newInterfaceName |}])%list)
    end in
  ((andOps2 ++ map wrapPossiblePartial fragments)%list, complexTypes2).

(** Lines 161-277.  The three kinds of [SelectionNode] are the three
    branches; the closing [else] of the source, which throws on any other
    kind, is shut out by the type.  Children are walked left to right, so
    the console lines and the first exception come in source order. *)
Fixpoint getChildSelections (operation : OperationTypeNode) (selection : SelectionNode)
         (indentation : string) (parent : option GraphQLType) (isUndefined : bool)
         {struct selection} : M IChildren :=
  match selection with
  | Field alias name directives selectionSet =>
      let! field := liftC (resolveField operation parent name) in
      let selectionName := default name alias in
      let! isUndefined :=
        (if isUndefined then ret true else isUndefinedFromDirective directives) in
      let! (childType, complexTypes) :=
        match selectionSet with
        | Some selectionSet =>
            let! _ :=
              match field with
              | None => console [ConsoleLog selection]
              | Some _ => ret tt
              end in
            let! type := liftC (typeOf field) in
            let fieldType := getNamedType type in
            let newParent := if isCompositeType fieldType then Some fieldType else None in
            let! selections :=
              mapM (fun sel =>
                      getChildSelections operation sel (indentation +:+ "  ") newParent false)
                   selectionSet in
            let '(andOps, complexTypes) := composeSelections name indentation selections in
            ret (Some (String.concat " & " andOps), complexTypes)
        | None => ret (None, [])
        end in
      let! type := liftC (typeOf field) in
      let resolvedType := convertToType type false childType in
      ret {| iface := formatInput (indentation +:+ selectionName) isUndefined resolvedType;
             isFragment := false;
             isPartial := false;
             complexTypes := complexTypes |}
  | FragmentSpread name directives =>
      let! partial := isUndefinedFromDirective directives in
      ret {| iface := generateFragmentName name;
             isFragment := true;
             isPartial := partial;
             complexTypes := [] |}
  | InlineFragment typeCondition directives selectionSet =>
      let anon := negb (bool_decide (is_Some typeCondition)) in
      let parent :=
        match typeCondition with
        | Some typeName => getType parsedSchema typeName
        | None => parent
        end in
      let! selections :=
        mapM (fun sel => getChildSelections operation sel indentation parent (negb anon))
             selectionSet in
      let joinSelections := String.concat LF (map iface selections) in
      let! partial := isUndefinedFromDirective directives in
      ret {| iface := joinSelections;
             isFragment := false;
             isPartial := partial;
             complexTypes := [] |}
  end.

(** *** The assembler *)

Definition getVariables (variables : list VariableDefinitionNode) : list string :=
  map (fun v =>
         let optional :=
           negb (match variable_type v with NonNullType _ => true | _ => false end) in
         let type := convertVariable (variable_type v) false None in
         formatInput (variable_name v) optional type)
      variables.

Definition variablesToInterface (opName : string)
           (variables : option (list VariableDefinitionNode)) : string :=
  match variables with
  | None | Some [] => ""
  | Some variables => formatVariableInterface opName (getVariables variables)
  end.

Definition buildAdditionalTypes (children : list IChildren) : list string :=
  let subTypes := flattenComplexTypes children in
  map (fun subtype =>
         if ct_isPartial subtype
         then "export type " +:+ interpolate (ct_name subtype) +:+ " = "
              +:+ ct_iface subtype +:+ ";"
         else "export interface " +:+ interpolate (ct_name subtype) +:+ " "
              +:+ ct_iface subtype)
      subTypes.

(** The callback of [parsedSelection.definitions.map]. *)
Definition convertDefinition (def : DefinitionNode) : M IReturn :=
  let ifaceName := buildRootInterfaceName def generateQueryName generateFragmentName in
  match def with
  | OperationDefinition operation _ variableDefinitions selectionSet =>
      let variableInterface := variablesToInterface ifaceName variableDefinitions in
      let! children :=
        mapM (fun sel => getChildSelections operation sel "  " None false) selectionSet in
      let fields := map iface children in
      ret {| variables := variableInterface;
             interface := formatInterface ifaceName fields;
             additionalTypes := buildAdditionalTypes children |}
  | FragmentDefinition _ onType selectionSet =>
      let foundType := getType parsedSchema onType in
      let! children :=
        mapM (fun sel => getChildSelections query sel "  " foundType false) selectionSet in
      let extensions := map iface (List.filter (fun x => isFragment x) children) in
      let fields := map iface (List.filter (fun x => negb (isFragment x)) children) in
      ret {| variables := "";
             interface := formatFragmentInterface ifaceName fields extensions;
             additionalTypes := buildAdditionalTypes children |}
  | OtherDefinition kind => throw (Error ("Unsupported Definition " +:+ kind))
  end.

End Compiler.

(** [doIt], on the schema and the document that [schemaFromInputs] and
    [parse] return.  [DEFAULT_TYPE_MAP] (of [./defaults]) is a parameter. *)
Definition doIt {options : IOptions} (DEFAULT_TYPE_MAP : ITypeMap)
           (parsedSchema : GraphQLSchema) (parsedSelection : DocumentNode)
           (typeMap : gmap string string) : M (list IReturn) :=
  let TypeMap := mergeTypeMap DEFAULT_TYPE_MAP typeMap in
  mapM (convertDefinition TypeMap parsedSchema) parsedSelection.

(** ** A concrete configuration for the examples

    TypeScript-flavoured hooks and a small schema, used only to run the
    compiler on concrete documents; every general theorem below holds for
    all hooks, type maps and schemas. *)

Module Sample.

Definition name_of (def : DefinitionNode) : string :=
  match def with
  | OperationDefinition _ (Some n) _ _ => n
  | OperationDefinition _ None _ _ => "Anonymous"
  | FragmentDefinition n _ _ => n
  | OtherDefinition _ => ""
  end.

#[global] Instance hooks : IOptions := {|
  buildRootInterfaceName def queryName fragmentName :=
    match def with
    | OperationDefinition _ _ _ _ => queryName def
    | FragmentDefinition n _ _ => fragmentName n
    | OtherDefinition _ => ""
    end;
  formatFragmentInterface opName fields ext :=
    "export interface " +:+ opName
    +:+ (match ext with [] => "" | _ => " extends " +:+ String.concat ", " ext end)
    +:+ " {" +:+ LF +:+ String.concat LF fields +:+ LF +:+ "}";
  formatInterface opName fields :=
    "export interface " +:+ opName +:+ " {" +:+ LF +:+ String.concat LF fields +:+ LF +:+ "}";
  formatVariableInterface opName fields :=
    "export interface " +:+ opName +:+ "Input {" +:+ LF +:+ "  "
    +:+ String.concat (LF +:+ "  ") fields +:+ LF +:+ "}";
  wrapList t := "Array<" +:+ t +:+ ">";
  wrapPartial t := "Partial<" +:+ t +:+ ">";
  generateSubTypeInterfaceName fieldName n :=
    Some ("SelectionOn_" +:+ fieldName +:+ (match n with 0 => "" | _ => "_partial" end));
  printType t isNonNull := if isNonNull then t else t +:+ " | null";
  formatInput fieldName isOptional t :=
    fieldName +:+ (if isOptional then "?" else "") +:+ ": " +:+ t +:+ ";";
  generateFragmentName n := "IFragment" +:+ n;
  generateQueryName def := name_of def;
|}.

Definition typeMap : ITypeMap := {|
  __DEFAULT := "any";
  entries := list_to_map
    [("ID", "string"); ("String", "string"); ("Boolean", "boolean");
     ("Float", "number"); ("Int", "number")];
|}.

(** [type Query { user: User, search: SearchResult }
     type User { id: ID!, name: String, friends: [User!] }
     type Bot { id: ID!, model: String }
     union SearchResult = Bot | User]; no mutation or subscription type. *)
Definition schema : GraphQLSchema := {|
  schema_types := list_to_map
    [("Query", GraphQLObjectType "Query"); ("User", GraphQLObjectType "User");
     ("Bot", GraphQLObjectType "Bot"); ("SearchResult", GraphQLUnionType "SearchResult");
     ("ID", GraphQLScalarType "ID"); ("String", GraphQLScalarType "String")];
  schema_fields := list_to_map
    [("Query",
      [("user", {| field_name := "user"; field_type := GraphQLObjectType "User" |});
       ("search", {| field_name := "search"; field_type := GraphQLUnionType "SearchResult" |})]);
     ("User",
      [("id", {| field_name := "id"; field_type := GraphQLNonNull (GraphQLScalarType "ID") |});
       ("name", {| field_name := "name"; field_type := GraphQLScalarType "String" |});
       ("friends", {| field_name := "friends";
                      field_type := GraphQLList (GraphQLNonNull (GraphQLObjectType "User")) |})]);
     ("Bot",
      [("id", {| field_name := "id"; field_type := GraphQLNonNull (GraphQLScalarType "ID") |});
       ("model", {| field_name := "model"; field_type := GraphQLScalarType "String" |})])];
  schema_unionTypes := list_to_map [("SearchResult", ["Bot"; "User"])];
  schema_queryType := Some "Query";
  schema_mutationType := None;
  schema_subscriptionType := None;
|}.


Definition run (document : DocumentNode) : Completion (list IReturn) * Console :=
  doIt typeMap schema document ∅ [].

Definition include : option (list DirectiveNode) := Some [{| directive_name := "include" |}].

End Sample.


(** ** Vocabulary of the statements *)

(** A recognized conditional directive ([skip] or [include]) is present. *)
Definition conditional (directives : option (list DirectiveNode)) : bool :=
  match directives with
  | Some ds => existsb (fun d => UndefinedDirectives_has (directive_name d)) ds
  | None => false
  end.

(** What the directive check writes on the error log. *)
Definition diagnostics (directives : option (list DirectiveNode)) : Console :=
  match directives with
  | Some ds =>
      match List.filter (fun d => negb (UndefinedDirectives_has (directive_name d))) ds with
      | [] => []
      | bad => ConsoleError "Found some unknown directives:"
               :: map (fun d => ConsoleError (directive_name d)) bad
      end
  | None => []
  end.

Definition isConsoleError (e : LogEntry) : bool :=
  match e with ConsoleError _ => true | ConsoleLog _ => false end.

(** The external name of a field: [alias ? alias.value : name.value]. *)
Definition selectionName (alias : option string) (name : string) : string :=
  default name alias.

(** The text handed to the outermost [printType] by [convertToType],
    whatever its flag. *)
Fixpoint typeBody {options : IOptions} (TypeMap : ITypeMap) (type : GraphQLType)
         (replacement : option string) : string :=
  match type with
  | GraphQLList ofType => wrapList (convertToType TypeMap ofType false replacement)
  | GraphQLNonNull ofType => typeBody TypeMap ofType replacement
  | GraphQLEnumType _ values =>
      String.concat " | " (map (fun en => "'" +:+ en +:+ "'") values)
  | _ =>
      js_or (typeMapGet TypeMap (js_or replacement (typeName type)))
            (match replacement with
             | Some r => if truthy r then r else __DEFAULT TypeMap
             | None => __DEFAULT TypeMap
             end)
  end.

(** What the walker returns for the fragment spread [...name directives]. *)
Definition spreadResult {options : IOptions} (spread : string * option (list DirectiveNode))
  : IChildren :=
  {| iface := generateFragmentName (fst spread);
     isFragment := true;
     isPartial := conditional (snd spread);
     complexTypes := [] |}.

(** The member a fragment spread adds to the intersection of its field. *)
Definition spreadMember {options : IOptions} (spread : string * option (list DirectiveNode))
  : string :=
  if conditional (snd spread)
  then wrapPartial (generateFragmentName (fst spread))
  else generateFragmentName (fst spread).

(** [parent && isCompositeType(parent)] *)
Definition compositeParent (parent : option GraphQLType) : bool :=
  match parent with
  | Some type => isCompositeType type
  | None => false
  end.

(** The flags of a result, read off the selection itself. *)
Definition isSpread (selection : SelectionNode) : bool :=
  match selection with FragmentSpread _ _ => true | _ => false end.

Definition isFieldSelection (selection : SelectionNode) : bool :=
  match selection with Field _ _ _ _ => true | _ => false end.

Definition partialFlag (selection : SelectionNode) : bool :=
  match selection with
  | Field _ _ _ _ => false
  | FragmentSpread _ directives | InlineFragment _ directives _ => conditional directives
  end.

(** The names of the fragment spreads of a selection set, in order. *)
Fixpoint spreadNames (selectionSet : list SelectionNode) : list string :=
  match selectionSet with
  | [] => []
  | FragmentSpread name _ :: rest => name :: spreadNames rest
  | _ :: rest => spreadNames rest
  end.

(** Every field the walker looks up on its way through a selection is
    found: the lookups of [getChildSelections], without its output. *)
Fixpoint resolves (parsedSchema : GraphQLSchema) (operation : OperationTypeNode)
         (selection : SelectionNode) (parent : option GraphQLType) {struct selection} : bool :=
  match selection with
  | Field _ name _ selectionSet =>
      match resolveField parsedSchema operation parent name with
      | Normal (Some f) =>
          match selectionSet with
          | None => true
          | Some selectionSet =>
              let fieldType := getNamedType (field_type f) in
              let newParent := if isCompositeType fieldType then Some fieldType else None in
              forallb (fun sel => resolves parsedSchema operation sel newParent) selectionSet
          end
      | _ => false
      end
  | FragmentSpread _ _ => true
  | InlineFragment typeCondition _ selectionSet =>
      let parent :=
        match typeCondition with
        | Some typeName => getType parsedSchema typeName
        | None => parent
        end in
      forallb (fun sel => resolves parsedSchema operation sel parent) selectionSet
  end.

(** The syntactic non-null test of [getVariables]:
    [v.type.kind === 'NonNullType']. *)
Definition isNonNullTypeNode (type : TypeNode) : bool :=
  match type with NonNullType _ => true | _ => false end.


(** How [buildAdditionalTypes] renders one auxiliary type. *)
Definition renderSubtype (subtype : IComplexTypeSignature) : string :=
  if ct_isPartial subtype
  then "export type " +:+ interpolate (ct_name subtype) +:+ " = " +:+ ct_iface subtype +:+ ";"
  else "export interface " +:+ interpolate (ct_name subtype) +:+ " " +:+ ct_iface subtype.

(** The two exceptions of the walker: the field map of an absent root
    type, and the type of a field that was not found. *)
Definition walkerError (e : JsError) : Prop :=
  e = TypeError "getFields" \/ e = TypeError "type".

(** Every field lookup of the walker succeeds in a definition that is an
    operation or a fragment. *)
Definition convertible (parsedSchema : GraphQLSchema) (def : DefinitionNode) : bool :=
  match def with
  | OperationDefinition operation _ _ selectionSet =>
      forallb (fun sel => resolves parsedSchema operation sel None) selectionSet
  | FragmentDefinition _ onType selectionSet =>
      forallb (fun sel => resolves parsedSchema query sel (getType parsedSchema onType))
              selectionSet
  | OtherDefinition _ => false
  end.

(** * Properties *)

(** ** The console monad *)

Lemma bind_Normal {A B} (c : M A) (k : A -> M B) log a log' :
  c log = (Normal a, log') -> bind c k log = k a log'.
Proof. intros E. unfold bind. now rewrite E. Qed.

Lemma bind_Throw {A B} (c : M A) (k : A -> M B) log e log' :
  c log = (Throw e, log') -> bind c k log = (Throw e, log').
Proof. intros E. unfold bind. now rewrite E. Qed.

Lemma bind_inv {A B} (c : M A) (k : A -> M B) log b log' :
  bind c k log = (Normal b, log') ->
  exists a mid, c log = (Normal a, mid) /\ k a mid = (Normal b, log').
Proof.
  unfold bind. destruct (c log) as [[a|e] mid]; [eauto | discriminate].
Qed.

Lemma mapM_cons {A B} (f : A -> M B) x xs :
  mapM f (x :: xs) = (let! y := f x in let! ys := mapM f xs in ret (y :: ys)).
Proof. reflexivity. Qed.

(** A successful [map] ran its callback successfully on every element. *)
Lemma mapM_Normal {A B} (f : A -> M B) xs :
  forall log ys log',
    mapM f xs log = (Normal ys, log') ->
    Forall2 (fun x y => exists l l', f x l = (Normal y, l')) xs ys.
Proof.
  induction xs as [|x xs IH]; intros log ys log' E.
  - injection E as <- _. constructor.
  - rewrite mapM_cons in E.
    apply bind_inv in E as (y & mid & Ey & E).
    apply bind_inv in E as (ys' & mid' & Eys & E).
    injection E as <- _.
    constructor; [eauto | eapply IH; eauto].
Qed.

(** An element whose callback throws on every console makes the whole
    [map] throw: nothing is returned. *)
Lemma mapM_Throw {A B} (f : A -> M B) xs x :
  In x xs ->
  (forall l, exists e l', f x l = (Throw e, l')) ->
  forall log, exists e log', mapM f xs log = (Throw e, log').
Proof.
  intros Hin Hx. induction xs as [|x0 xs IH]; [destruct Hin|].
  intros log. rewrite mapM_cons. unfold bind at 1.
  destruct (f x0 log) as [[y|e] mid] eqn:E0; [|eauto].
  destruct Hin as [->|Hin].
  - destruct (Hx log) as (e & l' & E). congruence.
  - destruct (IH Hin mid) as (e & l' & E).
    rewrite (bind_Throw _ _ _ _ _ E). eauto.
Qed.

(** ** The directive check *)

Lemma isUndefinedFromDirective_run directives log :
  isUndefinedFromDirective directives log
  = (Normal (conditional directives), (log ++ diagnostics directives)%list).
Proof.
  destruct directives as [[|d ds]|]; cbn [isUndefinedFromDirective conditional diagnostics];
    unfold ret; rewrite ?app_nil_r; try reflexivity.
  unfold bind.
  destruct (List.filter _ (d :: ds)) as [|b bad]; cbn; unfold ret, console;
    rewrite ?app_nil_r; reflexivity.
Qed.

Lemma conditional_true_iff directives :
  conditional directives = true <->
  exists ds d, directives = Some ds /\ In d ds /\
               (directive_name d = "include" \/ directive_name d = "skip").
Proof.
  destruct directives as [ds|]; cbn [conditional].
  - rewrite existsb_exists. split.
    + intros (d & Hin & Hd). exists ds, d. repeat split; trivial.
      unfold UndefinedDirectives_has, UndefinedDirectives in Hd. cbn in Hd.
      rewrite !orb_true_iff, !String.eqb_eq in Hd. intuition congruence.
    + intros (ds' & d & [= <-] & Hin & Hd). exists d. split; trivial.
      unfold UndefinedDirectives_has, UndefinedDirectives. cbn.
      rewrite !orb_true_iff, !String.eqb_eq. intuition congruence.
  - split; [discriminate | intros (? & ? & ? & _); discriminate].
Qed.

Lemma diagnostics_errors directives :
  forallb isConsoleError (diagnostics directives) = true.
Proof.
  destruct directives as [ds|]; cbn [diagnostics]; trivial.
  destruct (List.filter _ ds) as [|b bad]; trivial.
  cbn. induction bad; cbn; trivial.
Qed.

(** ** The type resolver *)

Section Resolver.

Context {options : IOptions}.
Variable TypeMap : ITypeMap.

(** The flag of the outermost [printType] is the flag passed in, or
    [true] under a non-null wrapper; the text does not depend on it. *)
Lemma convertToType_printType type :
  forall isNonNull replacement,
    convertToType TypeMap type isNonNull replacement
    = printType (typeBody TypeMap type replacement) (isNonNull || isNonNullable type).
Proof.
  induction type; intros b r; cbn [convertToType typeBody isNonNullable];
    rewrite ?orb_false_r; try reflexivity.
  all: try (unfold handleRegularType; destruct r as [r|]; cbn [js_or];
            [destruct (truthy r); cbn [js_or]|]; reflexivity).
  rewrite IHtype, orb_true_r. reflexivity.
Qed.

End Resolver.

(** ** The selection walker *)

Section Walker.

Context {options : IOptions}.
Variable TypeMap : ITypeMap.
Variable parsedSchema : GraphQLSchema.


(** A field with a selection set whose definition is found and whose
    children are walked successfully. *)
Lemma walk_nested_field operation alias name directives selectionSet indentation parent
      (isUndefined : bool) f log selections log' :
  resolveField parsedSchema operation parent name = Normal (Some f) ->
  mapM (fun sel =>
          getChildSelections TypeMap parsedSchema operation sel (indentation +:+ "  ")
               (if isCompositeType (getNamedType (field_type f))
                then Some (getNamedType (field_type f)) else None)
               false)
       selectionSet
       (log ++ (if isUndefined then [] else diagnostics directives))%list
  = (Normal selections, log') ->
  getChildSelections TypeMap parsedSchema operation (Field alias name directives (Some selectionSet)) indentation parent
       isUndefined log
  = (Normal {| iface := formatInput (indentation +:+ selectionName alias name)
                          (isUndefined || conditional directives)
                          (convertToType TypeMap (field_type f) false
                             (Some (String.concat " & "
                                      (fst (composeSelections name indentation selections)))));
               isFragment := false;
               isPartial := false;
               complexTypes := snd (composeSelections name indentation selections) |},
     log').
Proof.
  intros Hf Hsel. cbn [getChildSelections]. unfold bind at 1, liftC. rewrite Hf.
  assert (Hu : (if isUndefined then ret true else isUndefinedFromDirective directives) log
               = (Normal (isUndefined || conditional directives),
                  (log ++ (if isUndefined then [] else diagnostics directives))%list)).
  { destruct isUndefined; [unfold ret; now rewrite app_nil_r
                          | apply isUndefinedFromDirective_run]. }
  rewrite (bind_Normal _ _ _ _ _ Hu).
  unfold bind, ret. cbn [typeOf]. rewrite Hsel.
  destruct (composeSelections name indentation selections). reflexivity.
Qed.

(** Whatever a [Field] selection returns is one field line, built from
    the definition it resolved to; the result carries no flag. *)
Lemma walk_field_inv operation alias name directives selectionSet indentation parent
      isUndefined log r log' :
  getChildSelections TypeMap parsedSchema operation (Field alias name directives selectionSet) indentation parent
       isUndefined log = (Normal r, log') ->
  exists f childType,
    resolveField parsedSchema operation parent name = Normal (Some f) /\
    iface r = formatInput (indentation +:+ selectionName alias name)
                (isUndefined || conditional directives)
                (convertToType TypeMap (field_type f) false childType) /\
    isFragment r = false /\ isPartial r = false.
Proof.
  intros E. cbn [getChildSelections] in E.
  apply bind_inv in E as (field & l1 & Hf & E).
  unfold liftC in Hf. injection Hf as Hf <-.
  apply bind_inv in E as (u & l2 & Hu & E).
  assert (u = (isUndefined || conditional directives)) as ->.
  { destruct isUndefined; [now injection Hu as <- _|].
    rewrite isUndefinedFromDirective_run in Hu. now injection Hu as <- _. }
  apply bind_inv in E as ([childType cts] & l3 & _ & E).
  apply bind_inv in E as (type & l4 & Ht & E).
  destruct field as [f|]; [|discriminate].
  injection Ht as <- _. injection E as <- _.
  exists f, childType. auto.
Qed.

Lemma walk_fragment_spread operation name directives indentation parent isUndefined log :
  getChildSelections TypeMap parsedSchema operation (FragmentSpread name directives) indentation parent isUndefined log
  = (Normal {| iface := generateFragmentName name;
               isFragment := true;
               isPartial := conditional directives;
               complexTypes := [] |},
     (log ++ diagnostics directives)%list).
Proof.
  cbn [getChildSelections]. unfold bind. now rewrite isUndefinedFromDirective_run.
Qed.

End Walker.

(** * The claims *)

(** C1 — For every field selection the walker returns, the field line is
    [formatInput] of the external name, an optional marker and a type text.
    The marker is the inherited partiality or the presence of a skip/include
    directive and nothing else; the schema's non-null wrapping shows only in
    the type text, as the flag of the outermost [printType]: [true] (no
    nullable wrapper) exactly when the field's type is wrapped non-null,
    around the same text in both cases. *)
Theorem C1_nullability_shows_in_type_text_only
        {options : IOptions} (TypeMap : ITypeMap) (parsedSchema : GraphQLSchema)
        operation alias name directives selectionSet indentation parent
        (isUndefined : bool) log r log' :
  getChildSelections TypeMap parsedSchema operation
    (Field alias name directives selectionSet) indentation parent isUndefined log
  = (Normal r, log') ->
  exists f childType,
    resolveField parsedSchema operation parent name = Normal (Some f) /\
    iface r = formatInput (indentation +:+ selectionName alias name)
                (isUndefined || conditional directives)
                (printType (typeBody TypeMap (field_type f) childType)
                           (isNonNullable (field_type f))) /\
    (forall ofType,
        field_type f = GraphQLNonNull ofType ->
        typeBody TypeMap (field_type f) childType = typeBody TypeMap ofType childType /\
        convertToType TypeMap (field_type f) false childType
        = printType (typeBody TypeMap ofType childType) true).
Proof.
  intros E.
  destruct (walk_field_inv _ _ _ _ _ _ _ _ _ _ _ _ _ E) as (f & childType & Hf & Hi & _).
  exists f, childType. split; [exact Hf|]. split.
  - rewrite Hi, convertToType_printType. reflexivity.
  - intros ofType Ht. rewrite Ht. split; [reflexivity|].
    rewrite convertToType_printType. reflexivity.
Qed.

Lemma C1_witness :
  getChildSelections (options := Sample.hooks) Sample.typeMap Sample.schema query
    (Field None "id" None None) "  " (Some (GraphQLObjectType "User")) false []
  = (Normal {| iface := "  id: string;"; isFragment := false; isPartial := false;
               complexTypes := [] |}, [])
  /\ exists f childType,
      resolveField Sample.schema query (Some (GraphQLObjectType "User")) "id"
      = Normal (Some f) /\
      "  id: string;"
      = formatInput (IOptions := Sample.hooks) ("  " +:+ selectionName None "id")
          (false || conditional None)
          (printType (typeBody Sample.typeMap (field_type f) childType)
                     (isNonNullable (field_type f))) /\
      (forall ofType,
          field_type f = GraphQLNonNull ofType ->
          typeBody Sample.typeMap (field_type f) childType
          = typeBody Sample.typeMap ofType childType /\
          convertToType Sample.typeMap (field_type f) false childType
          = printType (typeBody Sample.typeMap ofType childType) true).
Proof.
  split; [vm_compute; reflexivity|].
  apply (C1_nullability_shows_in_type_text_only (options := Sample.hooks)
           Sample.typeMap Sample.schema query None "id" None None "  "
           (Some (GraphQLObjectType "User")) false []
           {| iface := "  id: string;"; isFragment := false; isPartial := false;
              complexTypes := [] |} []).
  vm_compute; reflexivity.
Defined.

(** C9 — The directive check always returns, and returns [true] exactly
    when the list holds a [skip] or an [include] directive.  Directives
    outside that set only add [console.error] lines to the log (one per such
    directive, after a heading); they neither abort the walk nor make a field
    optional: a field without a recognized directive that inherits no
    partiality is emitted with the optional marker [false]. *)
Theorem C9_directive_check
        {options : IOptions} (TypeMap : ITypeMap) (parsedSchema : GraphQLSchema) :
  (forall directives log,
      isUndefinedFromDirective directives log
      = (Normal (conditional directives), (log ++ diagnostics directives)%list)) /\
  (forall directives,
      conditional directives = true <->
      exists ds d, directives = Some ds /\ In d ds /\
                   (directive_name d = "include" \/ directive_name d = "skip")) /\
  (forall directives,
      forallb isConsoleError (diagnostics directives) = true) /\
  (forall ds d,
      In d ds -> UndefinedDirectives_has (directive_name d) = false ->
      In (ConsoleError (directive_name d)) (diagnostics (Some ds))) /\
  (forall operation alias name directives selectionSet indentation parent log r log',
      conditional directives = false ->
      getChildSelections TypeMap parsedSchema operation
        (Field alias name directives selectionSet) indentation parent false log
      = (Normal r, log') ->
      exists type,
        iface r = formatInput (indentation +:+ selectionName alias name) false type).
Proof.
  split; [exact isUndefinedFromDirective_run|].
  split; [exact conditional_true_iff|].
  split; [exact diagnostics_errors|].
  split.
  - intros ds d Hin Hbad. cbn [diagnostics].
    assert (Hf : In d (List.filter
                         (fun d => negb (UndefinedDirectives_has (directive_name d))) ds)).
    { apply filter_In. split; [exact Hin|]. now rewrite Hbad. }
    destruct (List.filter _ ds) as [|b bad]; [destruct Hf|].
    right. apply (in_map (fun d => ConsoleError (directive_name d))). exact Hf.
  - intros operation alias name directives selectionSet indentation parent log r log' Hc E.
    destruct (walk_field_inv _ _ _ _ _ _ _ _ _ _ _ _ _ E) as (f & childType & _ & Hi & _).
    rewrite Hc in Hi. eauto.
Qed.

Lemma C9_witness :
  conditional (Some [{| directive_name := "client" |}]) = false /\
  getChildSelections Sample.typeMap Sample.schema query
    (Field None "name" (Some [{| directive_name := "client" |}]) None)
    "  " (Some (GraphQLObjectType "User")) false []
  = (Normal {| iface := "  name: string | null;"; isFragment := false;
               isPartial := false; complexTypes := [] |},
     [ConsoleError "Found some unknown directives:"; ConsoleError "client"]) /\
  exists type,
    "  name: string | null;"
    = formatInput ("  " +:+ selectionName None "name") false type.
Proof.
  split; [reflexivity|]. split; [vm_compute; reflexivity|].
  apply (proj2 (proj2 (proj2 (proj2 (C9_directive_check Sample.typeMap Sample.schema))))
           query None "name" (Some [{| directive_name := "client" |}]) None "  "
           (Some (GraphQLObjectType "User")) []
           {| iface := "  name: string | null;"; isFragment := false;
              isPartial := false; complexTypes := [] |}
           [ConsoleError "Found some unknown directives:"; ConsoleError "client"]).
  - reflexivity.
  - vm_compute; reflexivity.
Defined.





(** ** Composition of the children of a field *)

Lemma flattenComplexTypes_concat children :
  flattenComplexTypes children = concat (map complexTypes children).
Proof.
  unfold flattenComplexTypes.
  enough (G : forall init,
             fold_left (fun acc child => (acc ++ complexTypes child)%list) children init
             = (init ++ concat (map complexTypes children))%list) by apply (G []).
  induction children as [|c children IH]; intros init; cbn.
  - now rewrite app_nil_r.
  - now rewrite IH, app_assoc.
Qed.

Lemma filter_filter_same {A} (p : A -> bool) l :
  List.filter p (List.filter p l) = List.filter p l.
Proof.
  induction l as [|x l IH]; cbn; trivial.
  destruct (p x) eqn:E; cbn; rewrite ?E, IH; trivial.
Qed.

Lemma filter_filter_negb {A} (p : A -> bool) l :
  List.filter p (List.filter (fun x => negb (p x)) l) = [].
Proof.
  induction l as [|x l IH]; cbn; trivial.
  destruct (p x) eqn:E; cbn; rewrite ?E; trivial.
Qed.

Section Composition.

Context {options : IOptions}.

(** The intersection of a field is that of its non-fragment children
    followed by one member per fragment child, in selection order. *)
Lemma composeSelections_fragments name indentation selections :
  fst (composeSelections name indentation selections)
  = (fst (composeSelections name indentation
            (List.filter (fun s => negb (isFragment s)) selections))
     ++ map wrapPossiblePartial (List.filter (fun s => isFragment s) selections))%list.
Proof.
  unfold composeSelections.
  rewrite (filter_filter_same (fun s => negb (isFragment s))).
  rewrite (filter_filter_negb (fun s => isFragment s)).
  set (nonFragments := List.filter (fun s => negb (isFragment s)) selections).
  destruct (List.filter (fun nf => negb (isPartial nf)) nonFragments);
    destruct (List.filter (fun nf => isPartial nf) nonFragments);
    cbn [fst map]; rewrite ?app_nil_r; reflexivity.
Qed.

Lemma spreadResults_fragments spreads :
  List.filter (fun s => isFragment s) (map spreadResult spreads) = map spreadResult spreads
  /\ List.filter (fun s => negb (isFragment s)) (map spreadResult spreads) = []
  /\ concat (map complexTypes (map spreadResult spreads)) = [].
Proof.
  induction spreads as [|s spreads (IH1 & IH2 & IH3)]; cbn; [auto|].
  rewrite IH1, IH2, IH3. auto.
Qed.

Lemma composeSelections_spreads name indentation spreads :
  composeSelections name indentation (map spreadResult spreads)
  = (map spreadMember spreads, []).
Proof.
  unfold composeSelections.
  destruct (spreadResults_fragments spreads) as (E1 & E2 & E3).
  rewrite flattenComplexTypes_concat, E1, E2, E3. cbn.
  f_equal. rewrite map_map. apply map_ext. intros [n d].
  unfold wrapPossiblePartial, spreadMember, spreadResult; cbn. reflexivity.
Qed.

Variable TypeMap : ITypeMap.
Variable parsedSchema : GraphQLSchema.

Lemma walk_spreads operation indentation parent (isUndefined : bool) spreads :
  forall log,
    mapM (fun sel => getChildSelections TypeMap parsedSchema operation sel indentation
                       parent isUndefined)
         (map (fun s => FragmentSpread (fst s) (snd s)) spreads) log
    = (Normal (map spreadResult spreads),
       (log ++ concat (map (fun s => diagnostics (snd s)) spreads))%list).
Proof.
  induction spreads as [|s spreads IH]; intros log.
  - cbn. unfold ret. now rewrite app_nil_r.
  - cbn [map]. rewrite mapM_cons.
    rewrite (bind_Normal _ _ _ _ _ (walk_fragment_spread _ _ _ _ _ _ _ _ _)).
    rewrite (bind_Normal _ _ _ _ _ (IH _)).
    unfold ret. cbn [concat]. now rewrite app_assoc.
Qed.

End Composition.

(** C4 — The walker returns for a fragment spread its generated fragment
    name, flagged as a fragment and partial exactly when the spread carries a
    skip or include directive.  In the intersection of the enclosing field
    the fragment children come after the members of the other children, one
    member each, in order: the bare generated name without such a directive,
    [wrapPartial] of it with one.  For a field that selects fragment spreads
    only, the intersection handed to the type resolver is exactly these
    members joined by [" & "]. *)
Theorem C4_fragment_spread_optionality
        {options : IOptions} (TypeMap : ITypeMap) (parsedSchema : GraphQLSchema) :
  (forall operation name directives indentation parent isUndefined log,
      getChildSelections TypeMap parsedSchema operation (FragmentSpread name directives)
        indentation parent isUndefined log
      = (Normal (spreadResult (name, directives)), (log ++ diagnostics directives)%list) /\
      wrapPossiblePartial (spreadResult (name, directives))
      = (if conditional directives
         then wrapPartial (generateFragmentName name)
         else generateFragmentName name)) /\
  (forall name indentation selections,
      fst (composeSelections name indentation selections)
      = (fst (composeSelections name indentation
                (List.filter (fun s => negb (isFragment s)) selections))
         ++ map wrapPossiblePartial
                (List.filter (fun s => isFragment s) selections))%list) /\
  (forall operation alias name directives spreads indentation parent (isUndefined : bool)
          f log,
      resolveField parsedSchema operation parent name = Normal (Some f) ->
      exists log',
        getChildSelections TypeMap parsedSchema operation
          (Field alias name directives
                 (Some (map (fun s => FragmentSpread (fst s) (snd s)) spreads)))
          indentation parent isUndefined log
        = (Normal {| iface := formatInput (indentation +:+ selectionName alias name)
                                (isUndefined || conditional directives)
                                (convertToType TypeMap (field_type f) false
                                   (Some (String.concat " & " (map spreadMember spreads))));
                     isFragment := false;
                     isPartial := false;
                     complexTypes := [] |},
           log')).
Proof.
  split; [|split].
  - intros. split; [apply walk_fragment_spread | reflexivity].
  - intros. apply composeSelections_fragments.
  - intros operation alias name directives spreads indentation parent isUndefined f log Hf.
    eexists.
    rewrite (walk_nested_field TypeMap parsedSchema operation alias name directives _
               indentation parent isUndefined f log _ _ Hf (walk_spreads _ _ _ _ _ _ _ _)).
    rewrite composeSelections_spreads. reflexivity.
Qed.

(** [{ user { ...Plain ...Gated @include(if: $x) } }] *)
Lemma C4_witness :
  resolveField Sample.schema query None "user"
  = Normal (Some {| field_name := "user"; field_type := GraphQLObjectType "User" |}) /\
  exists log',
    getChildSelections Sample.typeMap Sample.schema query
      (Field None "user" None
             (Some (map (fun s => FragmentSpread (fst s) (snd s))
                        [("Plain", None); ("Gated", Sample.include)])))
      "  " None false []
    = (Normal {| iface := formatInput ("  " +:+ selectionName None "user")
                            (false || conditional None)
                            (convertToType Sample.typeMap (GraphQLObjectType "User") false
                               (Some (String.concat " & "
                                        (map spreadMember
                                             [("Plain", None); ("Gated", Sample.include)]))));
                 isFragment := false;
                 isPartial := false;
                 complexTypes := [] |},
       log').
Proof.
  split; [reflexivity|].
  apply (proj2 (proj2 (C4_fragment_spread_optionality Sample.typeMap Sample.schema))
           query None "user" None [("Plain", None); ("Gated", Sample.include)]
           "  " None false
           {| field_name := "user"; field_type := GraphQLObjectType "User" |} []).
  reflexivity.
Defined.

(** The text of that field line. *)
Example C4_sample_line :
  getChildSelections Sample.typeMap Sample.schema query
    (Field None "user" None
           (Some [FragmentSpread "Plain" None; FragmentSpread "Gated" Sample.include]))
    "  " None false []
  = (Normal {| iface := "  user: IFragmentPlain & Partial<IFragmentGated> | null;";
               isFragment := false; isPartial := false; complexTypes := [] |}, []).
Proof. vm_compute. reflexivity. Qed.




(** The same fields under an anonymous inline fragment: no marker. *)
Example C3_sample_anonymous :
  getChildSelections Sample.typeMap Sample.schema query
    (InlineFragment None None [Field None "id" None None; Field None "name" None None])
    "  " (Some (GraphQLObjectType "User")) false []
  = (Normal {| iface := "  id: string;" +:+ LF +:+ "  name: string | null;";
               isFragment := false; isPartial := false; complexTypes := [] |}, []).
Proof. vm_compute. reflexivity. Qed.

(** ** Missing root types and missing fields *)

Lemma resolveField_root (parsedSchema : GraphQLSchema) operation parent name :
  compositeParent parent = false ->
  resolveField parsedSchema operation parent name
  = match getOperationFields parsedSchema operation with
    | Some operationFields =>
        Normal (getField (getFields parsedSchema operationFields) name)
    | None => Throw (TypeError "getFields")
    end.
Proof. destruct parent as [[]|]; cbn; intros; congruence. Qed.

Section Aborts.

Context {options : IOptions}.
Variable TypeMap : ITypeMap.
Variable parsedSchema : GraphQLSchema.

(** A field that is looked up in an absent root type throws before
    anything is written on the console. *)
Lemma walk_field_absent_root operation alias name directives selectionSet indentation
      parent isUndefined log :
  getOperationFields parsedSchema operation = None ->
  compositeParent parent = false ->
  getChildSelections TypeMap parsedSchema operation
    (Field alias name directives selectionSet) indentation parent isUndefined log
  = (Throw (TypeError "getFields"), log).
Proof.
  intros Hroot Hparent. cbn [getChildSelections]. unfold bind at 1, liftC.
  now rewrite (resolveField_root _ _ _ _ Hparent), Hroot.
Qed.

(** A definition with a selection that throws on every console throws. *)
Lemma convertDefinition_Throw operation opName variableDefinitions selectionSet sel :
  In sel selectionSet ->
  (forall l, exists e l',
        getChildSelections TypeMap parsedSchema operation sel "  " None false l
        = (Throw e, l')) ->
  forall log, exists e log',
      convertDefinition TypeMap parsedSchema
        (OperationDefinition operation opName variableDefinitions selectionSet) log
      = (Throw e, log').
Proof.
  intros Hin Hsel log. cbn [convertDefinition].
  destruct (mapM_Throw
              (fun sel => getChildSelections TypeMap parsedSchema operation sel "  " None false)
              selectionSet sel Hin Hsel log) as (e & log' & E).
  rewrite (bind_Throw _ _ _ _ _ E). eauto.
Qed.

End Aborts.

(** C8 (as amended) — A field selection whose name is absent from its
    resolved parent (for a union: from every member) makes the walker read
    the type of a missing field, which throws a TypeError and no structured
    error.  When the selection has a selection set, the selection is first
    written with [console.log]; when it has none, nothing is logged for it.
    In both cases only the directive diagnostics precede. *)
Theorem C8_unresolved_field
        {options : IOptions} (TypeMap : ITypeMap) (parsedSchema : GraphQLSchema)
        operation alias name directives indentation parent (isUndefined : bool) log :
  resolveField parsedSchema operation parent name = Normal None ->
  (forall selectionSet,
      getChildSelections TypeMap parsedSchema operation
        (Field alias name directives (Some selectionSet)) indentation parent isUndefined log
      = (Throw (TypeError "type"),
         (log ++ (if isUndefined then [] else diagnostics directives)
              ++ [ConsoleLog (Field alias name directives (Some selectionSet))])%list)) /\
  getChildSelections TypeMap parsedSchema operation
    (Field alias name directives None) indentation parent isUndefined log
  = (Throw (TypeError "type"),
     (log ++ (if isUndefined then [] else diagnostics directives))%list).
Proof.
  intros Hf.
  assert (Hu : (if isUndefined then ret true else isUndefinedFromDirective directives) log
               = (Normal (isUndefined || conditional directives),
                  (log ++ (if isUndefined then [] else diagnostics directives))%list)).
  { destruct isUndefined; [unfold ret; now rewrite app_nil_r
                          | apply isUndefinedFromDirective_run]. }
  split.
  - intros selectionSet. cbn [getChildSelections]. unfold bind at 1, liftC. rewrite Hf.
    rewrite (bind_Normal _ _ _ _ _ Hu). unfold bind, console. cbn [typeOf].
    now rewrite app_assoc.
  - cbn [getChildSelections]. unfold bind at 1, liftC. rewrite Hf.
    rewrite (bind_Normal _ _ _ _ _ Hu). reflexivity.
Qed.

(** [{ nope { id } }] against the sample schema. *)
Lemma C8_witness :
  resolveField Sample.schema query None "nope" = Normal None /\
  getChildSelections Sample.typeMap Sample.schema query
    (Field None "nope" None (Some [Field None "id" None None])) "  " None false []
  = (Throw (TypeError "type"),
     [ConsoleLog (Field None "nope" None (Some [Field None "id" None None]))]).
Proof.
  split; [reflexivity|].
  apply (proj1 (C8_unresolved_field Sample.typeMap Sample.schema query None "nope" None
                  "  " None false [] eq_refl) [Field None "id" None None]).
Defined.

(** [{ nope }] against the sample schema: the field is absent from [Query],
    the conversion throws, and the console stays empty. *)
Lemma C8_counterexample :
  resolveField Sample.schema query None "nope" = Normal None /\
  getChildSelections Sample.typeMap Sample.schema query
    (Field None "nope" None None) "  " None false []
  = (Throw (TypeError "type"), []) /\
  Sample.run [OperationDefinition query None None [Field None "nope" None None]]
  = (Throw (TypeError "type"), []).
Proof. repeat split; vm_compute; reflexivity. Qed.

(** ** The type map *)

(** [{ ...DEFAULT_TYPE_MAP, ...typeMap }[key]] *)
Lemma mergeTypeMap_get DEFAULT_TYPE_MAP (typeMap : gmap string string) key :
  typeMapGet (mergeTypeMap DEFAULT_TYPE_MAP typeMap) key
  = match typeMap !! key with
    | Some token => Some token
    | None => typeMapGet DEFAULT_TYPE_MAP key
    end.
Proof.
  unfold typeMapGet, mergeTypeMap; cbn [__DEFAULT entries].
  destruct (decide (key = "__DEFAULT")) as [->|Hne].
  - now destruct (typeMap !! "__DEFAULT").
  - rewrite lookup_union. now destruct (typeMap !! key), (entries DEFAULT_TYPE_MAP !! key).
Qed.

(** ** What an inline fragment keeps of its children *)

(** A field hands the auxiliary types of all its children on, in order,
    before the ones it generates itself. *)
Lemma composeSelections_keeps_children_types
      {options : IOptions} name indentation selections :
  exists own,
    snd (composeSelections name indentation selections)
    = (concat (map complexTypes selections) ++ own)%list.
Proof.
  unfold composeSelections. rewrite flattenComplexTypes_concat.
  set (nonFragments := List.filter (fun s => negb (isFragment s)) selections).
  destruct (List.filter (fun nf => negb (isPartial nf)) nonFragments);
    destruct (List.filter (fun nf => isPartial nf) nonFragments); cbn [snd].
  - exists []. now rewrite app_nil_r.
  - eexists. reflexivity.
  - eexists. reflexivity.
  - eexists. rewrite <- app_assoc. reflexivity.
Qed.

(** An inline fragment returns the joined lines of its children and its
    own directive flag; the flags and the auxiliary types of the children
    are not part of its result. *)
Lemma walk_inline_fragment_inv
      {options : IOptions} (TypeMap : ITypeMap) (parsedSchema : GraphQLSchema)
      operation typeCondition directives selectionSet indentation parent isUndefined
      log r log' :
  getChildSelections TypeMap parsedSchema operation
    (InlineFragment typeCondition directives selectionSet) indentation parent isUndefined log
  = (Normal r, log') ->
  complexTypes r = [] /\ isFragment r = false /\ isPartial r = conditional directives.
Proof.
  intros E. cbn [getChildSelections] in E.
  apply bind_inv in E as (children & mid & _ & E).
  apply bind_inv in E as (partial & mid' & Hp & E).
  rewrite isUndefinedFromDirective_run in Hp. injection Hp as <- _.
  injection E as <- _. auto.
Qed.

(** C2 — The failing input
    [{ user { ... on User { friends { name } } } }] on the sample schema.
    The field [friends] generates the auxiliary type [SelectionOn_friends]
    and its line refers to it; the inline fragment around it returns no
    auxiliary type; so the definition's list of auxiliary types declares
    [SelectionOn_user], whose body mentions [SelectionOn_friends], and never
    declares [SelectionOn_friends]. *)
Theorem C2_inline_fragment_drops_auxiliary_types :
  getChildSelections Sample.typeMap Sample.schema query
    (Field None "friends" None (Some [Field None "name" None None]))
    "    " (Some (GraphQLObjectType "User")) true []
  = (Normal {| iface := "    friends?: Array<SelectionOn_friends> | null;";
               isFragment := false;
               isPartial := false;
               complexTypes :=
                 [{| ct_iface := "{" +:+ LF +:+ "      name: string | null;" +:+ LF
                                 +:+ "    }";
                     ct_isPartial := false;
                     ct_name := Some "SelectionOn_friends" |}] |}, []) /\
  getChildSelections Sample.typeMap Sample.schema query
    (InlineFragment (Some "User") None
       [Field None "friends" None (Some [Field None "name" None None])])
    "    " (Some (GraphQLObjectType "User")) false []
  = (Normal {| iface := "    friends?: Array<SelectionOn_friends> | null;";
               isFragment := false;
               isPartial := false;
               complexTypes := [] |}, []) /\
  Sample.run
    [OperationDefinition query None None
       [Field None "user" None
          (Some [InlineFragment (Some "User") None
                   [Field None "friends" None (Some [Field None "name" None None])]])]]
  = (Normal
       [{| variables := "";
           interface := "export interface Anonymous {" +:+ LF
                        +:+ "  user: SelectionOn_user | null;" +:+ LF +:+ "}";
           additionalTypes :=
             ["export interface SelectionOn_user {" +:+ LF
              +:+ "    friends?: Array<SelectionOn_friends> | null;" +:+ LF +:+ "  }"] |}],
     []).
Proof. repeat split; vm_compute; reflexivity. Qed.

(** The same selection without the inline fragment keeps both types. *)
Example C2_sample_without_inline_fragment :
  Sample.run
    [OperationDefinition query None None
       [Field None "user" None
          (Some [Field None "friends" None (Some [Field None "name" None None])])]]
  = (Normal
       [{| variables := "";
           interface := "export interface Anonymous {" +:+ LF
                        +:+ "  user: SelectionOn_user | null;" +:+ LF +:+ "}";
           additionalTypes :=
             ["export interface SelectionOn_friends {" +:+ LF
              +:+ "      name: string | null;" +:+ LF +:+ "    }";
              "export interface SelectionOn_user {" +:+ LF
              +:+ "    friends: Array<SelectionOn_friends> | null;" +:+ LF +:+ "  }"] |}],
     []).
Proof. vm_compute. reflexivity. Qed.

(** C5 — The failing input
    [{ user { ... on User { ... @include(if: $x) { name } } } }] on the
    sample schema.  The inner inline fragment is marked partial by its
    directive, and the outer one passes inherited partiality down; the outer
    result is not partial and the line of [name] carries no optional marker,
    so [user] is composed as a definite interface.  Directly under the field
    the same inner fragment lands in the partial group and is wrapped. *)
Theorem C5_inline_fragment_drops_partial_flag :
  getChildSelections Sample.typeMap Sample.schema query
    (InlineFragment None Sample.include [Field None "name" None None])
    "    " (Some (GraphQLObjectType "User")) true []
  = (Normal {| iface := "    name: string | null;"; isFragment := false;
               isPartial := true; complexTypes := [] |}, []) /\
  getChildSelections Sample.typeMap Sample.schema query
    (InlineFragment (Some "User") None
       [InlineFragment None Sample.include [Field None "name" None None]])
    "    " (Some (GraphQLObjectType "User")) false []
  = (Normal {| iface := "    name: string | null;"; isFragment := false;
               isPartial := false; complexTypes := [] |}, []) /\
  Sample.run
    [OperationDefinition query None None
       [Field None "user" None
          (Some [InlineFragment (Some "User") None
                   [InlineFragment None Sample.include [Field None "name" None None]]])]]
  = (Normal
       [{| variables := "";
           interface := "export interface Anonymous {" +:+ LF
                        +:+ "  user: SelectionOn_user | null;" +:+ LF +:+ "}";
           additionalTypes :=
             ["export interface SelectionOn_user {" +:+ LF
              +:+ "    name: string | null;" +:+ LF +:+ "  }"] |}],
     []) /\
  Sample.run
    [OperationDefinition query None None
       [Field None "user" None
          (Some [InlineFragment None Sample.include [Field None "name" None None]])]]
  = (Normal
       [{| variables := "";
           interface := "export interface Anonymous {" +:+ LF
                        +:+ "  user: Partial<{" +:+ LF +:+ "    name: string | null;" +:+ LF
                        +:+ "  }> | null;" +:+ LF +:+ "}";
           additionalTypes :=
             ["export type SelectionOn_user = Partial<{" +:+ LF
              +:+ "    name: string | null;" +:+ LF +:+ "  }>;"] |}],
     []).
Proof. repeat split; vm_compute; reflexivity. Qed.

(** * Further properties of the compiler *)

(** ** Induction over nested selections *)

Lemma SelectionNode_nested_ind (P : SelectionNode -> Prop) :
  (forall alias name directives, P (Field alias name directives None)) ->
  (forall alias name directives selectionSet,
      Forall P selectionSet -> P (Field alias name directives (Some selectionSet))) ->
  (forall name directives, P (FragmentSpread name directives)) ->
  (forall typeCondition directives selectionSet,
      Forall P selectionSet -> P (InlineFragment typeCondition directives selectionSet)) ->
  forall selection, P selection.
Proof.
  intros Hleaf Hfield Hspread Hinline.
  refine (fix IH (selection : SelectionNode) : P selection :=
            match selection with
            | Field alias name directives None => Hleaf alias name directives
            | Field alias name directives (Some sels) =>
                Hfield alias name directives sels
                  ((fix all (l : list SelectionNode) : Forall P l :=
                      match l with
                      | [] => @List.Forall_nil _ P
                      | x :: rest => @List.Forall_cons _ P x rest (IH x) (all rest)
                      end) sels)
            | FragmentSpread name directives => Hspread name directives
            | InlineFragment tc directives sels =>
                Hinline tc directives sels
                  ((fix all (l : list SelectionNode) : Forall P l :=
                      match l with
                      | [] => @List.Forall_nil _ P
                      | x :: rest => @List.Forall_cons _ P x rest (IH x) (all rest)
                      end) sels)
            end).
Qed.

(** ** Which selections convert, and what the others throw *)

Lemma inherited_or_directive_run (isUndefined : bool) directives log :
  (if isUndefined then ret true else isUndefinedFromDirective directives) log
  = (Normal (isUndefined || conditional directives),
     (log ++ (if isUndefined then [] else diagnostics directives))%list).
Proof.
  destruct isUndefined; [unfold ret; now rewrite app_nil_r
                        | apply isUndefinedFromDirective_run].
Qed.

Lemma resolveField_Throw (parsedSchema : GraphQLSchema) operation parent name e :
  resolveField parsedSchema operation parent name = Throw e -> e = TypeError "getFields".
Proof.
  unfold resolveField.
  destruct parent as [[]|]; destruct (getOperationFields parsedSchema operation);
    intros [=]; congruence.
Qed.

Lemma mapM_outcome {A B} (f : A -> M B) (ok : A -> bool) (Q : JsError -> Prop) xs :
  Forall (fun x => forall log,
              match fst (f x log) with
              | Normal _ => ok x = true
              | Throw e => ok x = false /\ Q e
              end) xs ->
  forall log,
    match fst (mapM f xs log) with
    | Normal _ => forallb ok xs = true
    | Throw e => forallb ok xs = false /\ Q e
    end.
Proof.
  induction 1 as [|x xs Hx _ IH]; intros log; [reflexivity|].
  rewrite mapM_cons. unfold bind at 1. specialize (Hx log).
  destruct (f x log) as [[y|e] mid]; cbn [fst] in Hx; cbn [forallb].
  - rewrite Hx. cbn [andb]. unfold bind. specialize (IH mid).
    destruct (mapM f xs mid) as [[ys|e] mid']; cbn [fst] in IH |- *; exact IH.
  - destruct Hx as [-> HQ]. cbn [fst andb]. auto.
Qed.

Lemma walk_outcome
      {options : IOptions} (TypeMap : ITypeMap) (parsedSchema : GraphQLSchema) selection :
  forall operation indentation parent isUndefined log,
    match fst (getChildSelections TypeMap parsedSchema operation selection indentation
                 parent isUndefined log) with
    | Normal _ => resolves parsedSchema operation selection parent = true
    | Throw e => resolves parsedSchema operation selection parent = false /\ walkerError e
    end.
Proof.
  induction selection as [alias name directives
                         |alias name directives sels IH
                         |name directives
                         |tc directives sels IH] using SelectionNode_nested_ind;
    intros operation indentation parent isUndefined log;
    cbn [getChildSelections resolves].
  - unfold bind at 1, liftC.
    destruct (resolveField parsedSchema operation parent name) as [[f|]|e] eqn:Hf.
    + rewrite (bind_Normal _ _ _ _ _ (inherited_or_directive_run _ _ _)). reflexivity.
    + rewrite (bind_Normal _ _ _ _ _ (inherited_or_directive_run _ _ _)).
      cbn. unfold walkerError. auto.
    + cbn. apply resolveField_Throw in Hf as ->. unfold walkerError. auto.
  - unfold bind at 1, liftC.
    destruct (resolveField parsedSchema operation parent name) as [[f|]|e] eqn:Hf.
    + rewrite (bind_Normal _ _ _ _ _ (inherited_or_directive_run _ _ _)).
      unfold bind at 1. unfold bind at 1. unfold ret at 1. unfold bind at 1. cbn [typeOf liftC].
      unfold bind at 1.
      set (walkChild := fun sel => getChildSelections TypeMap parsedSchema operation sel _ _ _).
      set (start := (log ++ _)%list).
      pose proof (mapM_outcome walkChild
                    (fun sel => resolves parsedSchema operation sel
                                  (if isCompositeType (getNamedType (field_type f))
                                   then Some (getNamedType (field_type f)) else None))
                    walkerError sels) as Hm.
      specialize (Hm ltac:(eapply Forall_impl; [exact IH|]; intros sel Hsel l; apply Hsel) start).
      destruct (mapM walkChild sels start) as [[selections|e] mid]; cbn [fst] in Hm.
      * destruct (composeSelections name indentation selections). cbn. exact Hm.
      * cbn. exact Hm.
    + rewrite (bind_Normal _ _ _ _ _ (inherited_or_directive_run _ _ _)).
      cbn. unfold walkerError. auto.
    + cbn. apply resolveField_Throw in Hf as ->. unfold walkerError. auto.
  - unfold bind. rewrite isUndefinedFromDirective_run. reflexivity.
  - unfold bind at 1.
    set (walkChild := fun sel => getChildSelections TypeMap parsedSchema operation sel _ _ _).
    pose proof (mapM_outcome walkChild
                  (fun sel => resolves parsedSchema operation sel
                                (match tc with
                                 | Some typeName => getType parsedSchema typeName
                                 | None => parent
                                 end))
                  walkerError sels) as Hm.
    specialize (Hm ltac:(eapply Forall_impl; [exact IH|]; intros sel Hsel l; apply Hsel) log).
    destruct (mapM walkChild sels log) as [[selections|e] mid]; cbn [fst] in Hm.
    + rewrite (bind_Normal _ _ _ _ _ (isUndefinedFromDirective_run _ _)). cbn. exact Hm.
    + cbn. exact Hm.
Qed.

(** X2 — A selection is converted (the walker returns a result instead
    of throwing) exactly when every field it looks up on the way is found in
    the type it is resolved against; indentation, inherited partiality,
    directives and the console play no part in that. *)
Theorem X2_walker_returns_iff_fields_resolve
        {options : IOptions} (TypeMap : ITypeMap) (parsedSchema : GraphQLSchema)
        operation selection indentation parent isUndefined log :
  (exists r log',
      getChildSelections TypeMap parsedSchema operation selection indentation parent
        isUndefined log = (Normal r, log'))
  <-> resolves parsedSchema operation selection parent = true.
Proof.
  pose proof (walk_outcome TypeMap parsedSchema selection operation indentation parent
                isUndefined log) as H.
  destruct (getChildSelections TypeMap parsedSchema operation selection indentation parent
              isUndefined log) as [[r|e] log'] eqn:E; cbn [fst] in H.
  - split; [intros _; exact H | intros _; eauto].
  - destruct H as [H _]. split.
    + intros (r & l & [=]).
    + rewrite H. discriminate.
Qed.

Lemma mapM_Throw_inv {A B} (f : A -> M B) xs :
  forall log e log',
    mapM f xs log = (Throw e, log') ->
    exists x l l', In x xs /\ f x l = (Throw e, l').
Proof.
  induction xs as [|x xs IH]; intros log e log' E; [discriminate|].
  rewrite mapM_cons in E. unfold bind at 1 in E.
  destruct (f x log) as [[y|e0] mid] eqn:Ex.
  - unfold bind in E. destruct (mapM f xs mid) as [[ys|e1] mid'] eqn:Exs; [discriminate|].
    injection E as <- <-. destruct (IH _ _ _ Exs) as (x' & l & l' & Hin & Hx').
    exists x', l, l'. split; [now right | exact Hx'].
  - injection E as <- <-. exists x, log, mid. split; [now left | exact Ex].
Qed.

Lemma walk_Throw_inv
      {options : IOptions} (TypeMap : ITypeMap) (parsedSchema : GraphQLSchema)
      operation selection indentation parent isUndefined log e log' :
  getChildSelections TypeMap parsedSchema operation selection indentation parent
    isUndefined log = (Throw e, log') ->
  walkerError e /\ resolves parsedSchema operation selection parent = false.
Proof.
  intros E.
  pose proof (walk_outcome TypeMap parsedSchema selection operation indentation parent
                isUndefined log) as H.
  rewrite E in H. cbn [fst] in H. tauto.
Qed.

(** X3 — Once the schema and the query are parsed, and with hooks that
    return, the only exceptions the conversion of the document's definitions
    can end with are: the TypeError of reading the field map of an absent
    root type, the TypeError of reading the type of a field that was not
    found, and [Unsupported Definition <kind>] for a definition of the
    document that is neither an operation nor a fragment. *)
Theorem X3_exceptions_of_doIt
        {options : IOptions} (DEFAULT_TYPE_MAP : ITypeMap) (parsedSchema : GraphQLSchema)
        document typeMap log e log' :
  doIt DEFAULT_TYPE_MAP parsedSchema document typeMap log = (Throw e, log') ->
  e = TypeError "getFields" \/ e = TypeError "type" \/
  exists kind, In (OtherDefinition kind) document /\
               e = Error ("Unsupported Definition " +:+ kind).
Proof.
  unfold doIt. intros E.
  apply mapM_Throw_inv in E as (def & l & l' & Hin & Hdef).
  destruct def as [operation opName vars sels | fname onType sels | kind];
    cbn [convertDefinition] in Hdef.
  - unfold bind in Hdef.
    destruct (mapM _ sels l) as [[children|e0] mid] eqn:Ec; [discriminate|].
    injection Hdef as <- <-.
    apply mapM_Throw_inv in Ec as (sel & l0 & l1 & _ & Esel).
    apply walk_Throw_inv in Esel as [[-> | ->] _]; auto.
  - unfold bind in Hdef.
    destruct (mapM _ sels l) as [[children|e0] mid] eqn:Ec; [discriminate|].
    injection Hdef as <- <-.
    apply mapM_Throw_inv in Ec as (sel & l0 & l1 & _ & Esel).
    apply walk_Throw_inv in Esel as [[-> | ->] _]; auto.
  - injection Hdef as <- _. right. right. exists kind. auto.
Qed.

(** [{ user { id } } schema { query: Query }]: the second definition is a
    type-system definition. *)
Lemma X3_witness :
  Sample.run [OperationDefinition query None None
                [Field None "user" None (Some [Field None "id" None None])];
              OtherDefinition "SchemaDefinition"]
  = (Throw (Error "Unsupported Definition SchemaDefinition"), []) /\
  (Error "Unsupported Definition SchemaDefinition" = TypeError "getFields" \/
   Error "Unsupported Definition SchemaDefinition" = TypeError "type" \/
   exists kind,
     In (OtherDefinition kind)
        [OperationDefinition query None None
           [Field None "user" None (Some [Field None "id" None None])];
         OtherDefinition "SchemaDefinition"] /\
     Error "Unsupported Definition SchemaDefinition"
     = Error ("Unsupported Definition " +:+ kind)).
Proof.
  split; [vm_compute; reflexivity|].
  apply (X3_exceptions_of_doIt Sample.typeMap Sample.schema
           [OperationDefinition query None None
              [Field None "user" None (Some [Field None "id" None None])];
            OtherDefinition "SchemaDefinition"] ∅ [] _ []).
  vm_compute. reflexivity.
Defined.

(** X4 — A document that holds a definition other than an operation or a
    fragment is never converted: [doIt] throws, whatever the other
    definitions are, and returns no record. *)
Theorem X4_unsupported_definition_aborts
        {options : IOptions} (DEFAULT_TYPE_MAP : ITypeMap) (parsedSchema : GraphQLSchema)
        document typeMap kind log :
  In (OtherDefinition kind) document ->
  exists e log', doIt DEFAULT_TYPE_MAP parsedSchema document typeMap log = (Throw e, log').
Proof.
  intros Hin. unfold doIt. eapply mapM_Throw; [exact Hin|].
  intros l. exists (Error ("Unsupported Definition " +:+ kind)), l. reflexivity.
Qed.

Lemma X4_witness :
  In (OtherDefinition "SchemaDefinition")
     [OtherDefinition "SchemaDefinition";
      OperationDefinition query None None [Field None "user" None None]] /\
  exists e log',
    doIt Sample.typeMap Sample.schema
      [OtherDefinition "SchemaDefinition";
       OperationDefinition query None None [Field None "user" None None]] ∅ []
    = (Throw e, log').
Proof.
  split; [left; reflexivity|].
  apply (X4_unsupported_definition_aborts Sample.typeMap Sample.schema _ ∅
           "SchemaDefinition" []).
  left; reflexivity.
Defined.

(** ** The flags and the groups of a field's children *)

(** X5 — The flags of a result depend on the kind of the selection and on
    its own directives only: a result is a fragment reference exactly for a
    fragment spread; a field's result is never partial (its optionality is in
    its line); a spread's or an inline fragment's result is partial exactly
    when it carries skip or include; and only a field returns auxiliary
    types. *)
Theorem X5_result_flags
        {options : IOptions} (TypeMap : ITypeMap) (parsedSchema : GraphQLSchema)
        operation selection indentation parent isUndefined log r log' :
  getChildSelections TypeMap parsedSchema operation selection indentation parent
    isUndefined log = (Normal r, log') ->
  isFragment r = isSpread selection /\
  isPartial r = partialFlag selection /\
  (isFieldSelection selection = false -> complexTypes r = []).
Proof.
  destruct selection as [alias name directives ss | name directives | tc directives sels];
    intros E; cbn [isSpread partialFlag isFieldSelection].
  - destruct (walk_field_inv _ _ _ _ _ _ _ _ _ _ _ _ _ E) as (f & ct & _ & _ & -> & ->).
    repeat split. discriminate.
  - rewrite walk_fragment_spread in E. injection E as <- _. auto.
  - destruct (walk_inline_fragment_inv _ _ _ _ _ _ _ _ _ _ _ _ E) as (-> & -> & ->). auto.
Qed.

Lemma X5_witness :
  getChildSelections Sample.typeMap Sample.schema query
    (InlineFragment None Sample.include [Field None "name" None None])
    "  " (Some (GraphQLObjectType "User")) false []
  = (Normal {| iface := "  name: string | null;"; isFragment := false; isPartial := true;
               complexTypes := [] |}, []) /\
  false = isSpread (InlineFragment None Sample.include [Field None "name" None None]) /\
  true = partialFlag (InlineFragment None Sample.include [Field None "name" None None]) /\
  (isFieldSelection (InlineFragment None Sample.include [Field None "name" None None]) = false ->
   @nil IComplexTypeSignature = []).
Proof.
  split; [vm_compute; reflexivity|].
  apply (X5_result_flags Sample.typeMap Sample.schema query
           (InlineFragment None Sample.include [Field None "name" None None])
           "  " (Some (GraphQLObjectType "User")) false []
           {| iface := "  name: string | null;"; isFragment := false; isPartial := true;
              complexTypes := [] |} []).
  vm_compute; reflexivity.
Defined.




(** What a successful walk of a field with a selection set went through. *)
Lemma walk_nested_field_inv
      {options : IOptions} (TypeMap : ITypeMap) (parsedSchema : GraphQLSchema)
      operation alias name directives selectionSet indentation parent (isUndefined : bool)
      log r log' :
  getChildSelections TypeMap parsedSchema operation
    (Field alias name directives (Some selectionSet)) indentation parent isUndefined log
  = (Normal r, log') ->
  exists f selections mid,
    resolveField parsedSchema operation parent name = Normal (Some f) /\
    mapM (fun sel =>
            getChildSelections TypeMap parsedSchema operation sel (indentation +:+ "  ")
              (if isCompositeType (getNamedType (field_type f))
               then Some (getNamedType (field_type f)) else None)
              false)
         selectionSet mid
    = (Normal selections, log') /\
    r = {| iface := formatInput (indentation +:+ selectionName alias name)
                      (isUndefined || conditional directives)
                      (convertToType TypeMap (field_type f) false
                         (Some (String.concat " & "
                                  (fst (composeSelections name indentation selections)))));
           isFragment := false;
           isPartial := false;
           complexTypes := snd (composeSelections name indentation selections) |}.
Proof.
  intros E.
  destruct (walk_field_inv _ _ _ _ _ _ _ _ _ _ _ _ _ E) as (f & _ & Hf & _).
  pose proof E as E'. cbn [getChildSelections] in E'.
  unfold bind at 1, liftC in E'. rewrite Hf in E'.
  rewrite (bind_Normal _ _ _ _ _ (inherited_or_directive_run _ _ _)) in E'.
  unfold bind at 1 in E'. unfold bind at 1 in E'. unfold ret at 1 in E'.
  unfold bind at 1 in E'. cbn [typeOf liftC] in E'. unfold bind at 1 in E'.
  match type of E' with
  | context [mapM ?w selectionSet ?l] =>
      destruct (mapM w selectionSet l) as [[selections|e] mid] eqn:Em; [|discriminate]
  end.
  exists f, selections. eexists. split; [exact Hf|].
  destruct (composeSelections name indentation selections) as [andOps cts] eqn:Ec.
  cbn in E'. injection E' as <- <-.
  split; [exact Em | reflexivity].
Qed.





(** ** Variables *)

Lemma convertVariable_printType
      {options : IOptions} (TypeMap : ITypeMap) (parsedSchema : GraphQLSchema) type :
  forall isNonNull replacement,
  exists body,
    convertVariable TypeMap parsedSchema type isNonNull replacement
    = printType body (isNonNull || isNonNullTypeNode type).
Proof.
  induction type as [name | type IH | type IH]; intros b r;
    cbn [convertVariable isNonNullTypeNode]; rewrite ?orb_false_r.
  - unfold js_or.
    destruct (handleNamedTypeInput TypeMap parsedSchema (NamedType name) b) as [s|] eqn:Hs.
    + destruct (truthy s); [|unfold handleRegularType; eauto].
      cbn [handleNamedTypeInput] in Hs.
      destruct (truthy name); [|discriminate].
      destruct (getType parsedSchema name) as [[]|]; try discriminate;
        injection Hs as <-; unfold handleEnum, handleInputObject; eauto.
    + unfold handleRegularType; eauto.
  - eauto.
  - rewrite orb_true_r. destruct (IH true r) as (body & E). exists body.
    rewrite E. destruct (isNonNullTypeNode type); reflexivity.
Qed.

(** X8 — No variables interface is emitted for an operation without
    variables (absent or empty list).  Otherwise there is one line per
    variable, in order, and on each line the optional marker is the opposite
    of the non-null flag of the outermost [printType]: a variable is optional
    exactly when its type text keeps the nullable wrapper, i.e. when its type
    node is not a [NonNullType]. *)
Theorem X8_variable_lines
        {options : IOptions} (TypeMap : ITypeMap) (parsedSchema : GraphQLSchema) :
  (forall opName,
      variablesToInterface TypeMap parsedSchema opName None = "" /\
      variablesToInterface TypeMap parsedSchema opName (Some []) = "") /\
  (forall opName v vs,
      variablesToInterface TypeMap parsedSchema opName (Some (v :: vs))
      = formatVariableInterface opName (getVariables TypeMap parsedSchema (v :: vs))) /\
  (forall vs,
      Forall2 (fun v line =>
                 exists body,
                   line = formatInput (variable_name v)
                            (negb (isNonNullTypeNode (variable_type v)))
                            (printType body (isNonNullTypeNode (variable_type v))))
              vs (getVariables TypeMap parsedSchema vs)).
Proof.
  split; [intros; split; reflexivity|]. split; [reflexivity|].
  induction vs as [|v vs IH]; cbn [getVariables map]; constructor; [|exact IH].
  destruct (convertVariable_printType TypeMap parsedSchema (variable_type v) false None)
    as (body & E).
  exists body. rewrite E. cbn [orb].
  destruct (variable_type v); reflexivity.
Qed.

(** [($id: ID!, $tags: [String!])] *)
Example X8_sample :
  getVariables Sample.typeMap Sample.schema
    [{| variable_name := "id"; variable_type := NonNullType (NamedType "ID") |};
     {| variable_name := "tags";
        variable_type := ListType (NonNullType (NamedType "String")) |}]
  = ["id: string;"; "tags?: Array<string> | null;"].
Proof. vm_compute. reflexivity. Qed.

(** ** Definitions *)

Lemma spread_children
      {options : IOptions} (TypeMap : ITypeMap) (parsedSchema : GraphQLSchema)
      operation indentation parent isUndefined selectionSet children :
  Forall2 (fun sel child =>
             exists l l',
               getChildSelections TypeMap parsedSchema operation sel indentation parent
                 isUndefined l = (Normal child, l'))
          selectionSet children ->
  map iface (List.filter (fun x => isFragment x) children)
  = map generateFragmentName (spreadNames selectionSet) /\
  (length (List.filter (fun x => negb (isFragment x)) children)
   + length (spreadNames selectionSet) = length selectionSet)%nat.
Proof.
  induction 1 as [|sel c sels cs (l & l' & Hc) _ [IH1 IH2]]; [auto|].
  destruct sel as [alias name directives ss | name directives | tc directives ss].
  - destruct (walk_field_inv _ _ _ _ _ _ _ _ _ _ _ _ _ Hc) as (f & ct & _ & _ & Hfr & _).
    cbn [List.filter spreadNames]. rewrite Hfr. cbn [negb length]. split; [exact IH1|].
    now rewrite <- IH2.
  - rewrite walk_fragment_spread in Hc. injection Hc as <- _.
    cbn [List.filter spreadNames isFragment negb map iface length].
    split; [now rewrite IH1|]. rewrite <- IH2. lia.
  - destruct (walk_inline_fragment_inv _ _ _ _ _ _ _ _ _ _ _ _ Hc) as (_ & Hfr & _).
    cbn [List.filter spreadNames]. rewrite Hfr. cbn [negb length]. split; [exact IH1|].
    now rewrite <- IH2.
Qed.

(** X9 — A converted fragment definition has no variables interface, and
    its interface is [formatFragmentInterface] of the root name, the lines of
    the top-level selections that are not fragment spreads, and, as extended
    interfaces, the generated names of the top-level fragment spreads in
    selection order, with or without directives on them. *)
Theorem X9_fragment_definition_extends_its_spreads
        {options : IOptions} (TypeMap : ITypeMap) (parsedSchema : GraphQLSchema)
        name onType selectionSet log out log' :
  convertDefinition TypeMap parsedSchema (FragmentDefinition name onType selectionSet) log
  = (Normal out, log') ->
  exists fields,
    variables out = "" /\
    interface out
    = formatFragmentInterface
        (buildRootInterfaceName (FragmentDefinition name onType selectionSet)
           generateQueryName generateFragmentName)
        fields
        (map generateFragmentName (spreadNames selectionSet)) /\
    (length fields + length (spreadNames selectionSet) = length selectionSet)%nat.
Proof.
  intros E. cbn [convertDefinition] in E.
  apply bind_inv in E as (children & mid & Hm & E).
  injection E as <- _.
  apply mapM_Normal in Hm. apply spread_children in Hm as [H1 H2].
  eexists. cbn [variables interface]. split; [reflexivity|]. split.
  - rewrite H1. reflexivity.
  - rewrite length_map. exact H2.
Qed.

(** [fragment UserParts on User { id ...Names ... { name } ...Friends @include(if: $x) }] *)
Lemma X9_witness :
  exists out,
    convertDefinition Sample.typeMap Sample.schema
      (FragmentDefinition "UserParts" "User"
         [Field None "id" None None; FragmentSpread "Names" None;
          InlineFragment None None [Field None "name" None None];
          FragmentSpread "Friends" Sample.include]) []
    = (Normal out, []) /\
    interface out
    = "export interface IFragmentUserParts extends IFragmentNames, IFragmentFriends {"
      +:+ LF +:+ "  id: string;" +:+ LF +:+ "  name: string | null;" +:+ LF +:+ "}" /\
    exists fields,
      variables out = "" /\
      interface out
      = formatFragmentInterface
          (buildRootInterfaceName
             (FragmentDefinition "UserParts" "User"
                [Field None "id" None None; FragmentSpread "Names" None;
                 InlineFragment None None [Field None "name" None None];
                 FragmentSpread "Friends" Sample.include])
             generateQueryName generateFragmentName)
          fields
          (map generateFragmentName ["Names"; "Friends"]) /\
      (length fields + 2 = 4)%nat.
Proof.
  eexists. split; [vm_compute; reflexivity|]. split; [vm_compute; reflexivity|].
  apply (X9_fragment_definition_extends_its_spreads Sample.typeMap Sample.schema
           "UserParts" "User"
           [Field None "id" None None; FragmentSpread "Names" None;
            InlineFragment None None [Field None "name" None None];
            FragmentSpread "Friends" Sample.include] [] _ []).
  vm_compute; reflexivity.
Defined.

Lemma convertDefinition_outcome
      {options : IOptions} (TypeMap : ITypeMap) (parsedSchema : GraphQLSchema) def log :
  match fst (convertDefinition TypeMap parsedSchema def log) with
  | Normal _ => convertible parsedSchema def = true
  | Throw _ => convertible parsedSchema def = false /\ True
  end.
Proof.
  destruct def as [operation opName vars sels | fname onType sels | kind];
    cbn [convertDefinition convertible]; [| |cbn; auto].
  - unfold bind.
    pose proof (mapM_outcome
                  (fun sel => getChildSelections TypeMap parsedSchema operation sel "  " None
                                false)
                  (fun sel => resolves parsedSchema operation sel None)
                  (fun _ => True) sels) as Hm.
    specialize (Hm ltac:(apply Forall_forall; intros sel _ l;
                         pose proof (walk_outcome TypeMap parsedSchema sel operation "  "
                                       None false l) as H;
                         destruct (fst _); tauto) log).
    destruct (mapM _ sels log) as [[children|e] mid]; cbn [fst] in Hm |- *; exact Hm.
  - unfold bind.
    pose proof (mapM_outcome
                  (fun sel => getChildSelections TypeMap parsedSchema query sel "  "
                                (getType parsedSchema onType) false)
                  (fun sel => resolves parsedSchema query sel (getType parsedSchema onType))
                  (fun _ => True) sels) as Hm.
    specialize (Hm ltac:(apply Forall_forall; intros sel _ l;
                         pose proof (walk_outcome TypeMap parsedSchema sel query "  "
                                       (getType parsedSchema onType) false l) as H;
                         destruct (fst _); tauto) log).
    destruct (mapM _ sels log) as [[children|e] mid]; cbn [fst] in Hm |- *; exact Hm.
Qed.

(** X10 — Once the schema and the query are parsed, and with hooks that
    return, the conversion of the document's definitions returns records
    exactly when every definition is an operation or a fragment all of whose
    field lookups succeed; it then returns one record per definition.  Which
    type map is used, and which variables and directives the document
    carries, does not decide whether it returns. *)
Theorem X10_doIt_returns_iff_convertible
        {options : IOptions} (DEFAULT_TYPE_MAP : ITypeMap) (parsedSchema : GraphQLSchema)
        document typeMap log :
  ((exists out log',
       doIt DEFAULT_TYPE_MAP parsedSchema document typeMap log = (Normal out, log'))
   <-> forallb (convertible parsedSchema) document = true) /\
  (forall out log',
      doIt DEFAULT_TYPE_MAP parsedSchema document typeMap log = (Normal out, log') ->
      length out = length document).
Proof.
  unfold doIt. split.
  - pose proof (mapM_outcome
                  (convertDefinition (mergeTypeMap DEFAULT_TYPE_MAP typeMap) parsedSchema)
                  (convertible parsedSchema) (fun _ => True) document) as Hm.
    specialize (Hm ltac:(apply Forall_forall; intros def _ l;
                         apply convertDefinition_outcome) log).
    destruct (mapM _ document log) as [[out|e] log'']; cbn [fst] in Hm.
    + split; [intros _; exact Hm | intros _; eauto].
    + destruct Hm as [Hm _]. split; [intros (? & ? & [=]) | rewrite Hm; discriminate].
  - intros out log' E. apply mapM_Normal in E. symmetry. eapply Forall2_length. exact E.
Qed.

(** In the sample schema a query on [user] and a fragment on [User]
    convert; a query on [users], which [Query] does not declare, does not. *)
Lemma X10_witness :
  forallb (convertible Sample.schema)
    [OperationDefinition query None None
       [Field None "user" None (Some [FragmentSpread "UserParts" None])];
     FragmentDefinition "UserParts" "User" [Field None "id" None None]] = true /\
  (exists out log',
      Sample.run
        [OperationDefinition query None None
           [Field None "user" None (Some [FragmentSpread "UserParts" None])];
         FragmentDefinition "UserParts" "User" [Field None "id" None None]]
      = (Normal out, log')) /\
  forallb (convertible Sample.schema)
    [OperationDefinition query None None [Field None "users" None None]] = false.
Proof.
  split; [reflexivity|]. split; [|reflexivity].
  apply (proj1 (X10_doIt_returns_iff_convertible Sample.typeMap Sample.schema
                  [OperationDefinition query None None
                     [Field None "user" None (Some [FragmentSpread "UserParts" None])];
                   FragmentDefinition "UserParts" "User" [Field None "id" None None]]
                  ∅ [])).
  reflexivity.
Defined.

(** ** Auxiliary types *)

(** X11 — The auxiliary-type declarations of a list of results are the
    declarations of each result's auxiliary types, in order: the list for two
    runs of siblings is the concatenation of their lists.  Every auxiliary
    type is declared, a partial one as [export type <name> = <body>;] and a
    definite one as [export interface <name> <body>], also one whose name is
    [null] (the naming hook returned nothing and its body was inlined in the
    intersection): it is declared under the name [null]. *)
Theorem X11_additional_types :
  (forall children,
      buildAdditionalTypes children
      = map renderSubtype (concat (map complexTypes children))) /\
  (forall children1 children2,
      buildAdditionalTypes (children1 ++ children2)
      = (buildAdditionalTypes children1 ++ buildAdditionalTypes children2)%list) /\
  (forall children child subtype,
      In child children -> In subtype (complexTypes child) ->
      In (renderSubtype subtype) (buildAdditionalTypes children)) /\
  (forall body,
      renderSubtype {| ct_iface := body; ct_isPartial := false; ct_name := None |}
      = "export interface null " +:+ body).
Proof.
  assert (H : forall children,
             buildAdditionalTypes children
             = map renderSubtype (concat (map complexTypes children))).
  { intros children. unfold buildAdditionalTypes.
    now rewrite flattenComplexTypes_concat. }
  split; [exact H|]. split; [|split].
  - intros c1 c2. rewrite !H, map_app, concat_app, map_app. reflexivity.
  - intros children child subtype Hc Hs. rewrite H. apply in_map.
    apply in_concat. exists (complexTypes child). split; [now apply in_map | exact Hs].
  - reflexivity.
Qed.

Lemma X11_witness :
  In (renderSubtype {| ct_iface := "{}"; ct_isPartial := false; ct_name := None |})
     (buildAdditionalTypes
        [{| iface := "  a: {} | null;"; isFragment := false; isPartial := false;
            complexTypes :=
              [{| ct_iface := "{}"; ct_isPartial := false; ct_name := None |}] |}]).
Proof.
  apply (proj1 (proj2 (proj2 X11_additional_types))
           _ {| iface := "  a: {} | null;"; isFragment := false; isPartial := false;
                complexTypes :=
                  [{| ct_iface := "{}"; ct_isPartial := false; ct_name := None |}] |});
    left; reflexivity.
Defined.

(** ** The type map and named types *)

(** X12 — In the merged type map an entry of the caller wins over the
    built-in entry of the same key, a key the caller does not give keeps its
    built-in entry, and [__DEFAULT] is always present.  So a type whose name
    the caller maps to a non-empty token is printed as that token when no
    replacement is supplied. *)
Theorem X12_merged_type_map
        {options : IOptions} (DEFAULT_TYPE_MAP : ITypeMap) (typeMap : gmap string string)
        (key : string) :
  (forall token,
      typeMap !! key = Some token ->
      typeMapGet (mergeTypeMap DEFAULT_TYPE_MAP typeMap) key = Some token) /\
  (typeMap !! key = None ->
   typeMapGet (mergeTypeMap DEFAULT_TYPE_MAP typeMap) key
   = typeMapGet DEFAULT_TYPE_MAP key) /\
  is_Some (typeMapGet (mergeTypeMap DEFAULT_TYPE_MAP typeMap) "__DEFAULT") /\
  (forall token isNonNull,
      typeMap !! key = Some token -> truthy token = true ->
      handleRegularType (mergeTypeMap DEFAULT_TYPE_MAP typeMap) key isNonNull None
      = printType token isNonNull).
Proof.
  split; [|split; [|split]].
  - intros token H. now rewrite mergeTypeMap_get, H.
  - intros H. now rewrite mergeTypeMap_get, H.
  - rewrite mergeTypeMap_get. destruct (typeMap !! "__DEFAULT"); cbn; eauto.
  - intros token b H Ht. unfold handleRegularType. cbn [js_or].
    rewrite mergeTypeMap_get, H. cbn [js_or]. now rewrite Ht.
Qed.

Lemma X12_witness :
  ({["String" := "Text"]} : gmap string string) !! "String" = Some "Text" /\
  handleRegularType (mergeTypeMap Sample.typeMap {["String" := "Text"]}) "String" false None
  = "Text | null" /\
  typeMapGet (mergeTypeMap Sample.typeMap {["String" := "Text"]}) "Int" = Some "number".
Proof.
  split; [reflexivity|]. split.
  - etransitivity.
    + apply (proj2 (proj2 (proj2 (X12_merged_type_map Sample.typeMap
                                    {["String" := "Text"]} "String")))
               "Text" false); reflexivity.
    + reflexivity.
  - reflexivity.
Defined.

(** X13 — A type whose named type is an enum is printed from the enum's
    values alone: neither the type map nor a replacement (the type composed
    from a selection set) has any effect on its text. *)
Theorem X13_enum_ignores_type_map_and_replacement
        {options : IOptions} (type : GraphQLType) name values :
  getNamedType type = GraphQLEnumType name values ->
  forall TypeMap1 TypeMap2 isNonNull replacement1 replacement2,
    convertToType TypeMap1 type isNonNull replacement1
    = convertToType TypeMap2 type isNonNull replacement2.
Proof.
  induction type; intros Hn TM1 TM2 b r1 r2; cbn [getNamedType] in Hn;
    try discriminate; cbn [convertToType].
  - reflexivity.
  - now rewrite (IHtype Hn TM1 TM2 false r1 r2).
  - apply IHtype, Hn.
Qed.

(** [[Role!]] with [enum Role { ADMIN USER }], under a type map that maps
    [Role] and with a replacement. *)
Lemma X13_witness :
  getNamedType (GraphQLList (GraphQLNonNull (GraphQLEnumType "Role" ["ADMIN"; "USER"])))
  = GraphQLEnumType "Role" ["ADMIN"; "USER"] /\
  convertToType (mergeTypeMap Sample.typeMap {["Role" := "string"]})
    (GraphQLList (GraphQLNonNull (GraphQLEnumType "Role" ["ADMIN"; "USER"])))
    false (Some "SelectionOn_roles")
  = "Array<'ADMIN' | 'USER'> | null".
Proof.
  split; [reflexivity|].
  rewrite (X13_enum_ignores_type_map_and_replacement
             (GraphQLList (GraphQLNonNull (GraphQLEnumType "Role" ["ADMIN"; "USER"])))
             "Role" ["ADMIN"; "USER"] eq_refl
             (mergeTypeMap Sample.typeMap {["Role" := "string"]}) Sample.typeMap
             false (Some "SelectionOn_roles") None).
  vm_compute. reflexivity.
Defined.

(** X14 — The object literal printed for an input object has one line per
    field of the input object, in the order of its field map.  Every line is
    marked optional, also for a non-null field; the non-null wrapper of a
    field shows only as the flag of the [printType] of its type text. *)
Theorem X14_input_object_lines
        {options : IOptions} (TypeMap : ITypeMap) (parsedSchema : GraphQLSchema)
        (typeName : string) (isNonNull : bool) :
  exists lines,
    handleInputObject TypeMap parsedSchema typeName isNonNull
    = printType ("{" +:+ LF +:+ "    " +:+ String.concat (LF +:+ "    ") lines
                 +:+ LF +:+ "  }") isNonNull /\
    Forall2 (fun entry line =>
               exists body,
                 line = formatInput (field_name (snd entry)) true
                          (printType body (isNonNullable (field_type (snd entry)))))
            (getFields parsedSchema typeName) lines.
Proof.
  unfold handleInputObject. eexists. split; [reflexivity|].
  induction (getFields parsedSchema typeName) as [|[k v] fields IH]; cbn [map snd];
    constructor; [|exact IH].
  exists (typeBody TypeMap (field_type v) None).
  now rewrite convertToType_printType.
Qed.

(** ** Operations, unknown type conditions, inherited partiality *)

Lemma spread_lines
      {options : IOptions} (TypeMap : ITypeMap) (parsedSchema : GraphQLSchema)
      operation indentation parent isUndefined selectionSet children :
  Forall2 (fun sel child =>
             exists l l',
               getChildSelections TypeMap parsedSchema operation sel indentation parent
                 isUndefined l = (Normal child, l'))
          selectionSet children ->
  Forall2 (fun sel line =>
             match sel with
             | FragmentSpread name _ => line = generateFragmentName name
             | _ => True
             end)
          selectionSet (map iface children).
Proof.
  induction 1 as [|sel c sels cs (l & l' & Hc) _ IH]; cbn [map]; constructor; [|exact IH].
  destruct sel as [| name directives |]; trivial.
  rewrite walk_fragment_spread in Hc. now injection Hc as <- _.
Qed.

(** X15 — A converted operation definition passes one line per top-level
    selection to [formatInterface], in order, and its variables interface is
    that of its variable definitions.  A fragment spread at the top level of
    an operation is not extended as in a fragment definition: its generated
    name is itself one of the lines. *)
Theorem X15_operation_definition_lines
        {options : IOptions} (TypeMap : ITypeMap) (parsedSchema : GraphQLSchema)
        operation opName variableDefinitions selectionSet log out log' :
  convertDefinition TypeMap parsedSchema
    (OperationDefinition operation opName variableDefinitions selectionSet) log
  = (Normal out, log') ->
  exists lines,
    interface out
    = formatInterface
        (buildRootInterfaceName
           (OperationDefinition operation opName variableDefinitions selectionSet)
           generateQueryName generateFragmentName)
        lines /\
    variables out
    = variablesToInterface TypeMap parsedSchema
        (buildRootInterfaceName
           (OperationDefinition operation opName variableDefinitions selectionSet)
           generateQueryName generateFragmentName)
        variableDefinitions /\
    Forall2 (fun sel line =>
               match sel with
               | FragmentSpread name _ => line = generateFragmentName name
               | _ => True
               end)
            selectionSet lines.
Proof.
  intros E. cbn [convertDefinition] in E.
  apply bind_inv in E as (children & mid & Hm & E).
  injection E as <- _.
  apply mapM_Normal in Hm. apply spread_lines in Hm.
  exists (map iface children). cbn [interface variables]. auto.
Qed.

(** [query Q { ...UserParts user { id } }] *)
Lemma X15_witness :
  exists out,
    convertDefinition Sample.typeMap Sample.schema
      (OperationDefinition query (Some "Q") None
         [FragmentSpread "UserParts" None;
          Field None "user" None (Some [Field None "id" None None])]) []
    = (Normal out, []) /\
    interface out
    = "export interface Q {" +:+ LF +:+ "IFragmentUserParts" +:+ LF
      +:+ "  user: SelectionOn_user | null;" +:+ LF +:+ "}" /\
    exists lines,
      interface out
      = formatInterface
          (buildRootInterfaceName
             (OperationDefinition query (Some "Q") None
                [FragmentSpread "UserParts" None;
                 Field None "user" None (Some [Field None "id" None None])])
             generateQueryName generateFragmentName)
          lines /\
      variables out
      = variablesToInterface Sample.typeMap Sample.schema
          (buildRootInterfaceName
             (OperationDefinition query (Some "Q") None
                [FragmentSpread "UserParts" None;
                 Field None "user" None (Some [Field None "id" None None])])
             generateQueryName generateFragmentName)
          None /\
      Forall2 (fun sel line =>
                 match sel with
                 | FragmentSpread name _ => line = generateFragmentName name
                 | _ => True
                 end)
              [FragmentSpread "UserParts" None;
               Field None "user" None (Some [Field None "id" None None])]
              lines.
Proof.
  eexists. split; [vm_compute; reflexivity|]. split; [vm_compute; reflexivity|].
  apply (X15_operation_definition_lines Sample.typeMap Sample.schema query (Some "Q") None
           [FragmentSpread "UserParts" None;
            Field None "user" None (Some [Field None "id" None None])] [] _ []).
  vm_compute; reflexivity.
Defined.



(** X17 — Under inherited partiality the directives of a field are not
    looked at: a field that is found is converted to the same result, with
    the same console, whatever directives it carries, so an unknown directive
    on it is not reported. *)
Theorem X17_inherited_partiality_skips_the_directive_check
        {options : IOptions} (TypeMap : ITypeMap) (parsedSchema : GraphQLSchema)
        operation alias name directives1 directives2 selectionSet indentation parent f log :
  resolveField parsedSchema operation parent name = Normal (Some f) ->
  getChildSelections TypeMap parsedSchema operation
    (Field alias name directives1 selectionSet) indentation parent true log
  = getChildSelections TypeMap parsedSchema operation
      (Field alias name directives2 selectionSet) indentation parent true log.
Proof.
  intros Hf. cbn [getChildSelections]. unfold bind at 1 3, liftC. rewrite Hf.
  reflexivity.
Qed.

(** [name @client] under [... on User]: no diagnostic; the same field
    outside reports the directive. *)
Lemma X17_witness :
  resolveField Sample.schema query (Some (GraphQLObjectType "User")) "name"
  = Normal (Some {| field_name := "name"; field_type := GraphQLScalarType "String" |}) /\
  getChildSelections Sample.typeMap Sample.schema query
    (Field None "name" (Some [{| directive_name := "client" |}]) None)
    "  " (Some (GraphQLObjectType "User")) true []
  = (Normal {| iface := "  name?: string | null;"; isFragment := false; isPartial := false;
               complexTypes := [] |}, []) /\
  snd (getChildSelections Sample.typeMap Sample.schema query
         (Field None "name" (Some [{| directive_name := "client" |}]) None)
         "  " (Some (GraphQLObjectType "User")) false [])
  = [ConsoleError "Found some unknown directives:"; ConsoleError "client"].
Proof.
  split; [reflexivity|]. split; [|vm_compute; reflexivity].
  etransitivity.
  - apply (X17_inherited_partiality_skips_the_directive_check Sample.typeMap Sample.schema
             query None "name" (Some [{| directive_name := "client" |}]) None None "  "
             (Some (GraphQLObjectType "User"))
             {| field_name := "name"; field_type := GraphQLScalarType "String" |} []).
    reflexivity.
  - vm_compute. reflexivity.
Defined.

(** * Absent root types, and the key of the type-map lookup *)

(** ** What throws first *)

(** A [map] whose callback returns on a prefix of the list and throws [e]
    on the next element throws [e]. *)
Lemma mapM_Throw_at {A B} (f : A -> M B) pre x post e :
  Forall (fun y => forall l, exists r l', f y l = (Normal r, l')) pre ->
  (forall l, exists l', f x l = (Throw e, l')) ->
  forall log, exists log', mapM f (pre ++ x :: post)%list log = (Throw e, log').
Proof.
  intros Hpre Hx. induction Hpre as [|y pre Hy _ IH]; intros log; cbn [app].
  - rewrite mapM_cons. destruct (Hx log) as (l' & E).
    rewrite (bind_Throw _ _ _ _ _ E). eauto.
  - rewrite mapM_cons. destruct (Hy log) as (r & mid & E).
    rewrite (bind_Normal _ _ _ _ _ E).
    destruct (IH mid) as (l' & E'). rewrite (bind_Throw _ _ _ _ _ E'). eauto.
Qed.

Lemma walk_returns
      {options : IOptions} (TypeMap : ITypeMap) (parsedSchema : GraphQLSchema)
      operation selection indentation parent isUndefined :
  resolves parsedSchema operation selection parent = true ->
  forall l, exists r l',
      getChildSelections TypeMap parsedSchema operation selection indentation parent
        isUndefined l = (Normal r, l').
Proof.
  intros Hr l.
  pose proof (walk_outcome TypeMap parsedSchema selection operation indentation parent
                isUndefined l) as H.
  destruct (getChildSelections TypeMap parsedSchema operation selection indentation parent
              isUndefined l) as [[r|e] l']; cbn [fst] in H; [eauto|].
  destruct H as [H _]. congruence.
Qed.

Lemma convertDefinition_returns
      {options : IOptions} (TypeMap : ITypeMap) (parsedSchema : GraphQLSchema) def :
  convertible parsedSchema def = true ->
  forall l, exists out l', convertDefinition TypeMap parsedSchema def l = (Normal out, l').
Proof.
  intros Hc l. pose proof (convertDefinition_outcome TypeMap parsedSchema def l) as H.
  destruct (convertDefinition TypeMap parsedSchema def l) as [[out|e] l']; cbn [fst] in H;
    [eauto|].
  destruct H as [H _]. congruence.
Qed.

(** An operation that selects fragment spreads only is converted without
    any field lookup, whatever root types the schema has. *)
Lemma convertDefinition_spreads
      {options : IOptions} (TypeMap : ITypeMap) (parsedSchema : GraphQLSchema)
      operation opName variableDefinitions spreads log :
  convertDefinition TypeMap parsedSchema
    (OperationDefinition operation opName variableDefinitions
       (map (fun s => FragmentSpread (fst s) (snd s)) spreads)) log
  = (Normal
       {| variables :=
            variablesToInterface TypeMap parsedSchema
              (buildRootInterfaceName
                 (OperationDefinition operation opName variableDefinitions
                    (map (fun s => FragmentSpread (fst s) (snd s)) spreads))
                 generateQueryName generateFragmentName)
              variableDefinitions;
          interface :=
            formatInterface
              (buildRootInterfaceName
                 (OperationDefinition operation opName variableDefinitions
                    (map (fun s => FragmentSpread (fst s) (snd s)) spreads))
                 generateQueryName generateFragmentName)
              (map (fun s => generateFragmentName (fst s)) spreads);
          additionalTypes := [] |},
     (log ++ concat (map (fun s => diagnostics (snd s)) spreads))%list).
Proof.
  cbn [convertDefinition].
  rewrite (bind_Normal _ _ _ _ _ (walk_spreads TypeMap parsedSchema _ _ _ _ _ _)).
  unfold ret, buildAdditionalTypes.
  destruct (spreadResults_fragments spreads) as (_ & _ & E3).
  rewrite flattenComplexTypes_concat, E3, map_map. reflexivity.
Qed.

(** C7 (as amended) — When the root type of an operation kind is absent
    from the schema, every field selection that is resolved against it (one
    walked without a composite parent) throws the TypeError of reading the
    field map of [undefined].  A document holding an operation of that kind
    with such a field at the top level of its selection set converts to an
    exception, and [doIt] returns no record at all; the exception is that
    TypeError whenever the definitions before the operation and the top-level
    selections before the field convert.  The absence of the root type alone
    aborts nothing: an operation of that kind whose top-level selections are
    all fragment spreads is converted. *)
Theorem C7_absent_root_type_aborts
        {options : IOptions} (DEFAULT_TYPE_MAP : ITypeMap) (parsedSchema : GraphQLSchema)
        (typeMap : gmap string string) (operation : OperationTypeNode) :
  getOperationFields parsedSchema operation = None ->
  (forall TypeMap alias name directives selectionSet indentation parent isUndefined log,
      compositeParent parent = false ->
      getChildSelections TypeMap parsedSchema operation
        (Field alias name directives selectionSet) indentation parent isUndefined log
      = (Throw (TypeError "getFields"), log)) /\
  (forall document opName variableDefinitions selectionSet alias name directives nested log,
      In (OperationDefinition operation opName variableDefinitions selectionSet) document ->
      In (Field alias name directives nested) selectionSet ->
      exists e log',
        doIt DEFAULT_TYPE_MAP parsedSchema document typeMap log = (Throw e, log')) /\
  (forall definitionsBefore opName variableDefinitions selectionsBefore alias name
          directives nested selectionsAfter definitionsAfter log,
      forallb (convertible parsedSchema) definitionsBefore = true ->
      forallb (fun sel => resolves parsedSchema operation sel None) selectionsBefore = true ->
      exists log',
        doIt DEFAULT_TYPE_MAP parsedSchema
          (definitionsBefore
           ++ OperationDefinition operation opName variableDefinitions
                (selectionsBefore ++ Field alias name directives nested :: selectionsAfter)
              :: definitionsAfter)%list
          typeMap log
        = (Throw (TypeError "getFields"), log')) /\
  (forall TypeMap opName variableDefinitions spreads log,
      convertDefinition TypeMap parsedSchema
        (OperationDefinition operation opName variableDefinitions
           (map (fun s => FragmentSpread (fst s) (snd s)) spreads)) log
      = (Normal
           {| variables :=
                variablesToInterface TypeMap parsedSchema
                  (buildRootInterfaceName
                     (OperationDefinition operation opName variableDefinitions
                        (map (fun s => FragmentSpread (fst s) (snd s)) spreads))
                     generateQueryName generateFragmentName)
                  variableDefinitions;
              interface :=
                formatInterface
                  (buildRootInterfaceName
                     (OperationDefinition operation opName variableDefinitions
                        (map (fun s => FragmentSpread (fst s) (snd s)) spreads))
                     generateQueryName generateFragmentName)
                  (map (fun s => generateFragmentName (fst s)) spreads);
              additionalTypes := [] |},
         (log ++ concat (map (fun s => diagnostics (snd s)) spreads))%list)).
Proof.
  intros Hroot. split; [|split; [|split]].
  - intros. now apply walk_field_absent_root.
  - intros document opName variableDefinitions selectionSet alias name directives nested
           log Hdef Hsel.
    unfold doIt. eapply mapM_Throw; [exact Hdef|].
    intros l. eapply convertDefinition_Throw; [exact Hsel|].
    intros l0. exists (TypeError "getFields"), l0.
    now apply walk_field_absent_root.
  - intros pre opName vars before alias name directives nested after post log Hpre Hbefore.
    unfold doIt. apply mapM_Throw_at.
    + rewrite forallb_forall in Hpre. apply Forall_forall. intros def Hin.
      apply convertDefinition_returns. apply Hpre. now apply list_elem_of_In.
    + intros l. cbn [convertDefinition].
      destruct (mapM_Throw_at
                  (fun sel => getChildSelections (mergeTypeMap DEFAULT_TYPE_MAP typeMap)
                                parsedSchema operation sel "  " None false)
                  before (Field alias name directives nested) after
                  (TypeError "getFields")) with (log := l) as (l' & E).
      * rewrite forallb_forall in Hbefore. apply Forall_forall. intros sel Hin.
        apply walk_returns. apply Hbefore. now apply list_elem_of_In.
      * intros l0. exists l0. now apply walk_field_absent_root.
      * rewrite (bind_Throw _ _ _ _ _ E). eauto.
  - intros. apply convertDefinition_spreads.
Qed.

(** [mutation Touch { ...UserParts touch }] against the sample schema,
    which defines no mutation type: the spread converts, the field throws. *)
Lemma C7_witness :
  getOperationFields Sample.schema mutation = None /\
  Sample.run [OperationDefinition mutation (Some "Touch") None [Field None "touch" None None]]
  = (Throw (TypeError "getFields"), []) /\
  (exists e log',
      doIt Sample.typeMap Sample.schema
        [OperationDefinition mutation (Some "Touch") None [Field None "touch" None None]] ∅ []
      = (Throw e, log')) /\
  forallb (convertible Sample.schema)
    [FragmentDefinition "UserParts" "User" [Field None "id" None None]] = true /\
  forallb (fun sel => resolves Sample.schema mutation sel None)
    [FragmentSpread "UserParts" None] = true /\
  exists log',
    doIt Sample.typeMap Sample.schema
      ([FragmentDefinition "UserParts" "User" [Field None "id" None None]]
       ++ OperationDefinition mutation (Some "Touch") None
            ([FragmentSpread "UserParts" None] ++ Field None "touch" None None :: [])
          :: [])%list ∅ []
    = (Throw (TypeError "getFields"), log').
Proof.
  split; [reflexivity|]. split; [vm_compute; reflexivity|]. split.
  - apply (proj1 (proj2 (C7_absent_root_type_aborts Sample.typeMap Sample.schema ∅ mutation
                           eq_refl))
             _ (Some "Touch") None [Field None "touch" None None] None "touch" None None []);
      left; reflexivity.
  - split; [reflexivity|]. split; [reflexivity|].
    apply (proj1 (proj2 (proj2 (C7_absent_root_type_aborts Sample.typeMap Sample.schema ∅
                                  mutation eq_refl)))
             [FragmentDefinition "UserParts" "User" [Field None "id" None None]]
             (Some "Touch") None [FragmentSpread "UserParts" None] None "touch" None None
             [] [] []); reflexivity.
Defined.

(** [mutation Touch { ...UserParts } fragment UserParts on User { id }]
    against the sample schema: the mutation type is absent, nothing looks a
    field up in it, and both definitions are converted. *)
Lemma C7_counterexample :
  getOperationFields Sample.schema mutation = None /\
  Sample.run
    [OperationDefinition mutation (Some "Touch") None [FragmentSpread "UserParts" None];
     FragmentDefinition "UserParts" "User" [Field None "id" None None]]
  = (Normal
       [{| variables := "";
           interface := "export interface Touch {" +:+ LF +:+ "IFragmentUserParts" +:+ LF +:+ "}";
           additionalTypes := [] |};
        {| variables := "";
           interface := "export interface IFragmentUserParts {" +:+ LF
                        +:+ "  id: string;" +:+ LF +:+ "}";
           additionalTypes := [] |}],
     []).
Proof. split; [reflexivity | vm_compute; reflexivity]. Qed.

(** ** The key of the lookup *)

Lemma Object_prototype_truthy key text :
  Object_prototype key = Some text -> truthy text = true.
Proof.
  unfold Object_prototype.
  destruct (String.eqb key "constructor"); [intros [= <-]; reflexivity|].
  destruct (existsb _ _); [intros [= <-]; reflexivity|].
  destruct (String.eqb key "__proto__"); [intros [= <-]; reflexivity | discriminate].
Qed.

(** The three outcomes of [TypeMap[key] || fallback] for a key other than
    [__DEFAULT]: a non-empty own token, an inherited member, the fallback. *)
Lemma typeMapGet_or (TypeMap : ITypeMap) key fallback :
  key <> "__DEFAULT" ->
  (forall token,
      entries TypeMap !! key = Some token -> truthy token = true ->
      js_or (typeMapGet TypeMap key) fallback = token) /\
  (forall text,
      entries TypeMap !! key = None -> Object_prototype key = Some text ->
      js_or (typeMapGet TypeMap key) fallback = text) /\
  (entries TypeMap !! key = None -> Object_prototype key = None ->
   js_or (typeMapGet TypeMap key) fallback = fallback).
Proof.
  intros Hk. unfold typeMapGet. destruct (decide (key = "__DEFAULT")); [contradiction|].
  split; [|split].
  - intros token -> Ht. cbn [js_or]. now rewrite Ht.
  - intros text -> Hp. rewrite Hp. cbn [js_or].
    now rewrite (Object_prototype_truthy _ _ Hp).
  - intros -> ->. reflexivity.
Qed.

(** C10 (as amended) — [handleRegularType] looks the replacement up, not
    the name of the type, whenever a non-empty replacement is supplied: it
    emits what the merged table object has under the replacement text itself
    (a non-empty own token, or else a member the object inherits from
    [Object.prototype], such as [toString] or [constructor]) and otherwise
    the replacement verbatim, whatever the table holds under the name of the
    type.  The name of the type is looked up, in the same way, only when
    there is no replacement (or an empty one), and then a name that is no
    property of the table gives the [__DEFAULT] token.  The replacement of a
    field with a selection set is the intersection composed from the results
    of its children, joined by [" & "]. *)
Theorem C10_replacement_before_type_name
        {options : IOptions} (TypeMap : ITypeMap) (parsedSchema : GraphQLSchema)
        (typeValue : string) (isNonNull : bool) :
  (forall replacement,
      truthy replacement = true ->
      handleRegularType TypeMap typeValue isNonNull (Some replacement)
      = printType (js_or (typeMapGet TypeMap replacement) replacement) isNonNull) /\
  (forall replacement,
      truthy replacement = true -> replacement <> "__DEFAULT" ->
      (forall token,
          entries TypeMap !! replacement = Some token -> truthy token = true ->
          handleRegularType TypeMap typeValue isNonNull (Some replacement)
          = printType token isNonNull) /\
      (forall text,
          entries TypeMap !! replacement = None ->
          Object_prototype replacement = Some text ->
          handleRegularType TypeMap typeValue isNonNull (Some replacement)
          = printType text isNonNull) /\
      (entries TypeMap !! replacement = None -> Object_prototype replacement = None ->
       handleRegularType TypeMap typeValue isNonNull (Some replacement)
       = printType replacement isNonNull)) /\
  (forall replacement,
      replacement = None \/ replacement = Some "" ->
      handleRegularType TypeMap typeValue isNonNull replacement
      = printType (js_or (typeMapGet TypeMap typeValue) (__DEFAULT TypeMap)) isNonNull /\
      (typeValue <> "__DEFAULT" ->
       (forall token,
           entries TypeMap !! typeValue = Some token -> truthy token = true ->
           handleRegularType TypeMap typeValue isNonNull replacement
           = printType token isNonNull) /\
       (forall text,
           entries TypeMap !! typeValue = None -> Object_prototype typeValue = Some text ->
           handleRegularType TypeMap typeValue isNonNull replacement
           = printType text isNonNull) /\
       (entries TypeMap !! typeValue = None -> Object_prototype typeValue = None ->
        handleRegularType TypeMap typeValue isNonNull replacement
        = printType (__DEFAULT TypeMap) isNonNull))) /\
  (forall operation alias name directives selectionSet indentation parent
          (isUndefined : bool) log r log',
      getChildSelections TypeMap parsedSchema operation
        (Field alias name directives (Some selectionSet)) indentation parent isUndefined log
      = (Normal r, log') ->
      exists f selections mid,
        resolveField parsedSchema operation parent name = Normal (Some f) /\
        mapM (fun sel =>
                getChildSelections TypeMap parsedSchema operation sel (indentation +:+ "  ")
                  (if isCompositeType (getNamedType (field_type f))
                   then Some (getNamedType (field_type f)) else None)
                  false)
             selectionSet mid
        = (Normal selections, log') /\
        iface r = formatInput (indentation +:+ selectionName alias name)
                    (isUndefined || conditional directives)
                    (convertToType TypeMap (field_type f) false
                       (Some (String.concat " & "
                                (fst (composeSelections name indentation selections)))))).
Proof.
  assert (Hsome : forall replacement,
             truthy replacement = true ->
             handleRegularType TypeMap typeValue isNonNull (Some replacement)
             = printType (js_or (typeMapGet TypeMap replacement) replacement) isNonNull).
  { intros replacement Ht. unfold handleRegularType. cbn [js_or]. now rewrite Ht. }
  assert (Hnone : forall replacement,
             replacement = None \/ replacement = Some "" ->
             handleRegularType TypeMap typeValue isNonNull replacement
             = printType (js_or (typeMapGet TypeMap typeValue) (__DEFAULT TypeMap))
                 isNonNull).
  { intros replacement [-> | ->]; reflexivity. }
  split; [exact Hsome|]. split; [|split].
  - intros replacement Ht Hk.
    destruct (typeMapGet_or TypeMap replacement replacement Hk) as (H1 & H2 & H3).
    split; [|split].
    + intros token He Htok. now rewrite (Hsome _ Ht), (H1 _ He Htok).
    + intros text He Hp. now rewrite (Hsome _ Ht), (H2 _ He Hp).
    + intros He Hp. now rewrite (Hsome _ Ht), (H3 He Hp).
  - intros replacement Hr. split; [exact (Hnone _ Hr)|].
    intros Hk.
    destruct (typeMapGet_or TypeMap typeValue (__DEFAULT TypeMap) Hk) as (H1 & H2 & H3).
    split; [|split].
    + intros token He Htok. now rewrite (Hnone _ Hr), (H1 _ He Htok).
    + intros text He Hp. now rewrite (Hnone _ Hr), (H2 _ He Hp).
    + intros He Hp. now rewrite (Hnone _ Hr), (H3 He Hp).
  - intros operation alias name directives selectionSet indentation parent isUndefined
           log r log' E.
    apply walk_nested_field_inv in E as (f & selections & mid & Hf & Hm & ->).
    exists f, selections, mid. auto.
Qed.

(** With [SelectionOn_user] itself a key of the table the replacement of
    [{ user { id } }] is printed as the token under it; a type named
    [toString] without replacement is printed as the inherited member. *)
Lemma C10_witness :
  (truthy "SelectionOn_user" = true /\
   handleRegularType
     (mergeTypeMap Sample.typeMap {["User" := "MappedUser"; "SelectionOn_user" := "Renamed"]})
     "User" false (Some "SelectionOn_user")
   = "Renamed | null") /\
  (Object_prototype "toString" = Some "function toString() { [native code] }" /\
   handleRegularType Sample.typeMap "toString" false None
   = "function toString() { [native code] } | null").
Proof.
  split; (split; [reflexivity|]).
  - pose proof (C10_replacement_before_type_name
                  (mergeTypeMap Sample.typeMap
                     {["User" := "MappedUser"; "SelectionOn_user" := "Renamed"]})
                  Sample.schema "User" false) as (_ & H & _).
    assert (Hk : "SelectionOn_user" <> "__DEFAULT") by discriminate.
    destruct (H "SelectionOn_user" eq_refl Hk) as (H1 & _).
    etransitivity; [apply (H1 "Renamed"); reflexivity | reflexivity].
  - pose proof (C10_replacement_before_type_name Sample.typeMap Sample.schema
                  "toString" false) as (_ & _ & H & _).
    assert (Hk : "toString" <> "__DEFAULT") by discriminate.
    destruct (H None (or_introl eq_refl)) as (_ & H').
    destruct (H' Hk) as (_ & H2 & _).
    etransitivity; [apply (H2 "function toString() { [native code] }"); reflexivity
                   | reflexivity].
Defined.

(** [{ user { id } }] with the caller's type map [{ User: 'MappedUser' }]:
    the name of the composite type [User] is a key of the merged table, and
    the field is emitted with the type composed from its selection set, not
    with the mapped token. *)
Lemma C10_counterexample :
  typeMapGet (mergeTypeMap Sample.typeMap {["User" := "MappedUser"]}) "User"
  = Some "MappedUser" /\
  handleRegularType (mergeTypeMap Sample.typeMap {["User" := "MappedUser"]})
    "User" false (Some "SelectionOn_user")
  = "SelectionOn_user | null" /\
  doIt Sample.typeMap Sample.schema
    [OperationDefinition query None None
       [Field None "user" None (Some [Field None "id" None None])]]
    {["User" := "MappedUser"]} []
  = (Normal
       [{| variables := "";
           interface := "export interface Anonymous {" +:+ LF
                        +:+ "  user: SelectionOn_user | null;" +:+ LF +:+ "}";
           additionalTypes :=
             ["export interface SelectionOn_user {" +:+ LF
              +:+ "    id: string;" +:+ LF +:+ "  }"] |}],
     []).
Proof. repeat split; vm_compute; reflexivity. Qed.
